(** * CRM GraphQL backend: the validated write pipeline

    A shallow embedding of [crm/schema.py], [models.py] and
    [seed_db.py]: the validation and the writes of createCustomer,
    bulkCreateCustomers, createProduct and createOrder, the three
    ordered queries, the seeding script, and the part of Python and of
    the Django ORM they rest on (truthiness, [int], [str], [re],
    decimals, model [save], related managers, [get_or_create],
    [transaction.atomic]).

    Conventions.
    - Python [str] is [string]; only ASCII text is modelled ([\d] and
      whitespace are the ASCII classes).
    - A [DecimalField(decimal_places=2)] value is the integer number of its
      hundredths: [Decimal('10.00')] is [1000].
    - A [DateTimeField] value is an integer instant; [now] is the clock
      reading of the call.
    - Primary keys are integers. The store is SQLite, Django's default:
      it holds and binds signed 64-bit integers, so a key outside that
      range has no row and cannot travel as a query parameter.
    - The store enforces primary keys, NOT NULL, foreign keys and
      [unique=True]; as with SQLite, it does not enforce [max_length]. *)

From stdpp Require Import gmap strings list pretty sorting.
From Stdlib Require Import ZArith Ascii.

Local Open Scope Z_scope.

(* ===================================================================== *)
(** * Python: characters, [int], [str], [join]                            *)
(* ===================================================================== *)

Definition is_digit (c : ascii) : bool :=
  let n := nat_of_ascii c in (48 <=? n)%nat && (n <=? 57)%nat.

(** The whitespace that [int] strips from ASCII text: TAB, LF, VT, FF,
    CR and the space. The separators FS..US are not among them: [int]
    of a digit behind one of them is a [ValueError]. *)
Definition is_space (c : ascii) : bool :=
  let n := nat_of_ascii c in
  ((9 <=? n)%nat && (n <=? 13)%nat) || (n =? 32)%nat.

Definition digit_val (c : ascii) : Z := Z.of_nat (nat_of_ascii c) - 48.

Fixpoint lstrip (s : string) : string :=
  match s with
  | String c s' => if is_space c then lstrip s' else s
  | EmptyString => EmptyString
  end.

Definition strip (s : string) : string :=
  String.rev (lstrip (String.rev (lstrip s))).

(** The digit part of an integer literal: decimal digits, a single
    underscore allowed between two digits. [after_us] records that the
    previous character was an underscore. *)
Fixpoint int_digits (acc : Z) (after_us : bool) (s : string) : option Z :=
  match s with
  | EmptyString => if after_us then None else Some acc
  | String c s' =>
      if Ascii.eqb c "_" then
        if after_us then None else int_digits acc true s'
      else if is_digit c then int_digits (10 * acc + digit_val c) false s'
      else None
  end.

Definition int_unsigned (s : string) : option Z :=
  match s with
  | String c _ => if is_digit c then int_digits 0 false s else None
  | EmptyString => None
  end.

(** [int(s)] for a [str] argument, base 10; [None] is [ValueError]. *)
Definition py_int (s : string) : option Z :=
  match strip s with
  | String "+" r => int_unsigned r
  | String "-" r => Z.opp <$> int_unsigned r
  | r => int_unsigned r
  end.

(** [str(n)] for an [int]. *)
Definition py_str (n : Z) : string := pretty n.

(** [sep.join(l)]. *)
Fixpoint py_join (sep : string) (l : list string) : string :=
  match l with
  | [] => ""
  | [x] => x
  | x :: l' => x +:+ sep +:+ py_join sep l'
  end.

(** [sum(...)] over decimals, from the integer [0]. *)
Definition py_sum (l : list Z) : Z := foldl Z.add 0 l.

(** [sorted(s)] for a set of integers. *)
Definition py_sorted (s : gset Z) : list Z := merge_sort Z.le (elements s).

(** Truthiness of an optional string argument: [None] and [""] are false. *)
Definition truthy (o : option string) : bool :=
  match o with
  | Some (String _ _) => true
  | _ => false
  end.

(** [o or ""]. *)
Definition or_empty (o : option string) : string :=
  match o with
  | Some (String c s) => String c s
  | _ => ""
  end.

(* ===================================================================== *)
(** * Python [re]: the fragment [PHONE_REGEX] uses                         *)
(* ===================================================================== *)

(** Regular expressions over character classes. *)
Inductive regex : Type :=
  | Void : regex
  | Eps : regex
  | Class (p : ascii → bool) : regex
  | Cat (r1 r2 : regex) : regex
  | Alt (r1 r2 : regex) : regex
  | Star (r : regex) : regex.

Fixpoint nullable (r : regex) : bool :=
  match r with
  | Void => false
  | Eps => true
  | Class _ => false
  | Cat r1 r2 => nullable r1 && nullable r2
  | Alt r1 r2 => nullable r1 || nullable r2
  | Star _ => true
  end.

(** Brzozowski derivative of [r] by the character [c]. *)
Fixpoint deriv (c : ascii) (r : regex) : regex :=
  match r with
  | Void => Void
  | Eps => Void
  | Class p => if p c then Eps else Void
  | Cat r1 r2 =>
      if nullable r1 then Alt (Cat (deriv c r1) r2) (deriv c r2)
      else Cat (deriv c r1) r2
  | Alt r1 r2 => Alt (deriv c r1) (deriv c r2)
  | Star r1 => Cat (deriv c r1) (Star r1)
  end.

(** The whole of [s] matches [r]. *)
Fixpoint fullmatch (r : regex) (s : string) : bool :=
  match s with
  | EmptyString => nullable r
  | String c s' => fullmatch (deriv c r) s'
  end.

(** [x?] and [x{n,}]. *)
Definition Opt (r : regex) : regex := Alt r Eps.

Fixpoint AtLeast (n : nat) (r : regex) : regex :=
  match n with
  | O => Star r
  | S n' => Cat r (AtLeast n' r)
  end.

Definition chr (a : ascii) : regex := Class (Ascii.eqb a).
Definition digit_or_hyphen (c : ascii) : bool := is_digit c || Ascii.eqb c "-".

Definition LF : ascii := ascii_of_nat 10.

(** [s] without a final line feed, when it has one. *)
Fixpoint chomp (s : string) : option string :=
  match s with
  | EmptyString => None
  | String c EmptyString => if Ascii.eqb c LF then Some "" else None
  | String c s' => String c <$> chomp s'
  end.

(** [re.compile("^(" body ")$").match(s)] is not [None]: [^] anchors the
    start, and [$] holds at the end of the string or just before a line
    feed that ends the string. *)
Definition re_match_anchored (body : regex) (s : string) : bool :=
  fullmatch body s ||
  match chomp s with
  | Some s' => fullmatch body s'
  | None => false
  end.

(** [PHONE_REGEX = re.compile(r"^(\+?\d[\d\-]{6,}\d)$")]: the pattern
    between the anchors; [PHONE_REGEX_match] is [PHONE_REGEX.match]. *)
Definition PHONE_REGEX : regex :=
  Cat (Opt (chr "+"))
      (Cat (Class is_digit)
           (Cat (AtLeast 6 (Class digit_or_hyphen)) (Class is_digit))).

Definition PHONE_REGEX_match (s : string) : bool :=
  re_match_anchored PHONE_REGEX s.

(** The guard [phone and not PHONE_REGEX.match(phone)] of both customer
    mutations. *)
Definition phone_rejected (phone : option string) : bool :=
  match phone with
  | Some s => truthy phone && negb (PHONE_REGEX_match s)
  | None => false
  end.

(* ===================================================================== *)
(** * models.py: rows, instances and the store                            *)
(* ===================================================================== *)

(** A table maps primary keys to rows. A model instance is a Python
    object: its [id] is [None] until the first save, and a date field with
    [auto_now_add] is [None] until the insert fills it. Fetching a row
    builds the instance that carries the row's key. *)

Module Customer.
Record row : Type := mk_row {
  r_name : string;              (* CharField(max_length=255) *)
  r_email : string;             (* EmailField(unique=True) *)
  r_phone : option string;      (* CharField(blank=True, null=True) *)
  r_created_at : Z              (* DateTimeField(auto_now_add=True) *)
}.
Record t : Type := mk {
  id : option Z;
  name : string;
  email : string;
  phone : option string;
  created_at : option Z
}.
Definition of_row (k : Z) (r : row) : t :=
  mk (Some k) (r_name r) (r_email r) (r_phone r) (Some (r_created_at r)).
End Customer.

Module Product.
Record row : Type := mk_row {
  r_name : string;
  r_price : Z;                  (* DecimalField(decimal_places=2), hundredths *)
  r_stock : Z                   (* PositiveIntegerField(default=0) *)
}.
Record t : Type := mk {
  id : option Z;
  name : string;
  price : Z;
  stock : Z
}.
Definition of_row (k : Z) (r : row) : t :=
  mk (Some k) (r_name r) (r_price r) (r_stock r).
End Product.

Module Order.
Record row : Type := mk_row {
  r_customer_id : Z;            (* ForeignKey(Customer) *)
  r_total_amount : Z;           (* DecimalField(decimal_places=2, default=0.0) *)
  r_order_date : Z              (* DateTimeField(auto_now_add=True) *)
}.
Record t : Type := mk {
  id : option Z;
  customer_id : option Z;
  total_amount : Z;
  order_date : option Z
}.
End Order.

(** The store. [order_products] is the table behind
    [Order.products = ManyToManyField(Product)]: one row per
    (order, product) pair. *)
Record DB : Type := mkDB {
  customers : gmap Z Customer.row;
  products : gmap Z Product.row;
  orders : gmap Z Order.row;
  order_products : gset (Z * Z)
}.

Definition set_customers (f : gmap Z Customer.row → gmap Z Customer.row) (db : DB) : DB :=
  mkDB (f (customers db)) (products db) (orders db) (order_products db).
Definition set_orders (f : gmap Z Order.row → gmap Z Order.row) (db : DB) : DB :=
  mkDB (customers db) (products db) (f (orders db)) (order_products db).
Definition set_order_products (f : gset (Z * Z) → gset (Z * Z)) (db : DB) : DB :=
  mkDB (customers db) (products db) (orders db) (f (order_products db)).

(** The key an [AutoField] gives the next inserted row: above every key
    of the table, and at least 1. *)
Definition next_pk {A} (m : gmap Z A) : Z :=
  1 + foldr Z.max 0 (fst <$> map_to_list m).

(* ===================================================================== *)
(** * Exceptions and the store monad                                       *)
(* ===================================================================== *)

Inductive exn : Type :=
  | ValueError          (* int() of a malformed key; related manager of an unsaved instance *)
  | DoesNotExist        (* Model.objects.get found no row *)
  | IntegrityError      (* a constraint of the store rejected a write *)
  | DatabaseError       (* an UPDATE demanded by update_fields touched no row *)
  | FieldError          (* order_by on a name the model does not have *)
  | OverflowError       (* a query parameter that does not fit 64 bits *)
  | TypeError           (* int(None) *)
  | RelatedObjectDoesNotExist.  (* order.customer on an order that has none *)

#[global] Instance exn_eq_dec : EqDecision exn := ltac:(solve_decision).

(** A computation ends with a value or with a raised exception, and in
    both cases with the store as it then is. *)
Inductive outcome (A : Type) : Type :=
  | Return (a : A) (db : DB)
  | Raise (e : exn) (db : DB).
Arguments Return {A} a db.
Arguments Raise {A} e db.

Definition M (A : Type) : Type := DB → outcome A.

Definition ret {A} (a : A) : M A := λ db, Return a db.
Definition raise {A} (e : exn) : M A := λ db, Raise e db.
Definition bind {A B} (m : M A) (k : A → M B) : M B :=
  λ db, match m db with
        | Return a db' => k a db'
        | Raise e db' => Raise e db'
        end.
Definition get_db : M DB := λ db, Return db db.
Definition modify_db (f : DB → DB) : M unit := λ db, Return tt (f db).

Notation "x <- m ;; k" := (bind m (λ x, k))
  (at level 100, m at next level, right associativity).
Notation "m ;;; k" := (bind m (λ _, k))
  (at level 100, right associativity).

(** [with transaction.atomic(): body]: an exception leaving the block
    rolls the store back to what it was on entry and is re-raised. *)
Definition atomic {A} (body : M A) : M A :=
  λ db, match body db with
        | Return a db' => Return a db'
        | Raise e _ => Raise e db
        end.

(** [try: body except exc: handler]. *)
Definition try_except {A} (body : M A) (exc : exn) (handler : M A) : M A :=
  λ db, match body db with
        | Return a db' => Return a db'
        | Raise e db' => if decide (e = exc) then handler db' else Raise e db'
        end.

(** A key argument is prepared with [int]; a malformed one is a
    [ValueError]. *)
Definition prep_pk (s : string) : M Z :=
  match py_int s with
  | Some k => ret k
  | None => raise ValueError
  end.

Fixpoint mapM {A B} (f : A → M B) (l : list A) : M (list B) :=
  match l with
  | [] => ret []
  | x :: l' => y <- f x ;; ys <- mapM f l' ;; ret (y :: ys)
  end.

(* ===================================================================== *)
(** * The ORM operations the schema calls                                  *)
(* ===================================================================== *)

(** ** Customer *)

(** Some row of the table holds the email [e] (exact match, as stored). *)
Definition email_taken (m : gmap Z Customer.row) (e : string) : bool :=
  bool_decide (map_Exists (λ _ r, Customer.r_email r = e) m).

(** [Customer.objects.filter(email=e).exists()] *)
Definition Customer_objects_filter_email_exists (e : string) : M bool :=
  db <- get_db ;; ret (email_taken (customers db) e).

(** [Customer.objects.create(name=.., email=.., phone=..)], and equally
    [c = Customer(name=.., email=.., phone=..); c.save()]: the INSERT of a
    new instance. [created_at] is [auto_now_add]; [email] is [unique], and
    the store refuses a second row with the same email. The instance comes
    back with its key. *)
Definition Customer_objects_create (now : Z) (name email phone : string)
    : M Customer.t :=
  db <- get_db ;;
  if email_taken (customers db) email then raise IntegrityError
  else
    let k := next_pk (customers db) in
    let r := Customer.mk_row name email (Some phone) now in
    modify_db (set_customers (insert k r)) ;;;
    ret (Customer.of_row k r).

(** [Customer.objects.get(pk=customer_id)] *)
Definition Customer_objects_get (customer_id : string) : M Customer.t :=
  k <- prep_pk customer_id ;;
  db <- get_db ;;
  match customers db !! k with
  | Some r => ret (Customer.of_row k r)
  | None => raise DoesNotExist
  end.

(** ** Product *)

(** The instances of the rows of [m], each row once. *)
Definition instances (m : gmap Z Product.row) : list Product.t :=
  (λ kr, Product.of_row kr.1 kr.2) <$> map_to_list m.

(** The integers that SQLite holds and binds: 64 bits, signed. *)
Definition int64 (k : Z) : bool := (- 2 ^ 63 <=? k) && (k <? 2 ^ 63).

(** [list(Product.objects.filter(pk__in=product_ids))]: every reference is
    prepared as a key, then the query runs and the rows with one of these
    keys are fetched. The keys travel as parameters of the query, and one
    that does not fit 64 bits cannot be bound: the query raises
    [OverflowError]. Every key of a table fits, so such a key is one
    without a row. *)
Definition Product_objects_filter_pk_in (product_ids : list string)
    : M (list Product.t) :=
  ks <- mapM prep_pk product_ids ;;
  db <- get_db ;;
  if forallb (λ k, int64 k || bool_decide (is_Some (products db !! k))) ks
  then ret (instances (filter (λ kr, kr.1 ∈ ks) (products db)))
  else raise OverflowError.

(** ** Order *)

(** [str(self)] for an order, as far as it can fail:
<<
    def __str__(self):
        return f"Order {self.id} - {self.customer.name}"
>>
    [self.customer] raises [RelatedObjectDoesNotExist] on an order
    without a customer, and otherwise gives the customer of that key,
    the row being fetched ([DoesNotExist] when there is none) unless the
    instance already holds it. *)
Definition Order_str (self : Order.t) : M unit :=
  match Order.customer_id self with
  | None => raise RelatedObjectDoesNotExist
  | Some c =>
      db <- get_db ;;
      match customers db !! c with
      | Some _ => ret tt
      | None => raise DoesNotExist
      end
  end.

(** [self.products] / [order.products]: the related manager of an
    instance, here the key it is bound to. Django builds no
    many-to-many manager for an instance without a primary key: the
    attribute access itself raises [ValueError]. The message of that
    error names the instance with [repr], which calls [str(self)]
    first: where that fails, its exception is the one raised. *)
Definition Order_products (self : Order.t) : M Z :=
  match Order.id self with
  | Some k => ret k
  | None => Order_str self ;;; raise ValueError
  end.

(** [manager.all()], evaluated. *)
Definition related_all (k : Z) : M (list Product.t) :=
  db <- get_db ;;
  ret (instances (filter (λ kr, (k, kr.1) ∈ order_products db) (products db))).

(** [manager.set(objs)]: afterwards the order's association rows are
    exactly one per distinct object of [objs]. An object without a key
    cannot be added ([ValueError]), and an association row needs the row
    of its order and the row of its product, the foreign keys of the
    association table ([IntegrityError]). [set] runs in a transaction of
    its own, so a refusal leaves the association rows as they were. *)
Definition related_set (k : Z) (objs : list Product.t) : M unit :=
  db <- get_db ;;
  if negb (forallb (λ p, bool_decide (is_Some (Product.id p))) objs)
  then raise ValueError
  else if negb (bool_decide (is_Some (orders db !! k))
                && forallb (λ pk, bool_decide (is_Some (products db !! pk)))
                     (omap Product.id objs))
  then raise IntegrityError
  else
    modify_db (set_order_products (λ rows,
      filter (λ r, r.1 ≠ k) rows
      ∪ list_to_set ((λ pk, (k, pk)) <$> omap Product.id objs))).

(** The keyword arguments of [save] that the schema and the manager use. *)
Record save_kwargs : Type := mk_kwargs {
  force_insert : bool;
  update_fields : option (list string)
}.

(** The names [update_fields] may hold: the fields of [Order] other than
    the key, a foreign key under both of its names. *)
Definition order_field_names : list string :=
  ["customer"; "customer_id"; "total_amount"; "order_date"].

(** INSERT of an order under the key [k]. [order_date] is [auto_now_add]:
    on insert the field's [pre_save] puts the current time on the
    instance, whatever value the instance carried. *)
Definition Order_insert (now : Z) (k : Z) (self : Order.t) : M Order.t :=
  db <- get_db ;;
  match orders db !! k, Order.customer_id self with
  | Some _, _ => raise IntegrityError              (* duplicate key *)
  | None, None => raise IntegrityError             (* customer_id NOT NULL *)
  | None, Some c =>
      match customers db !! c with
      | None => raise IntegrityError               (* foreign key *)
      | Some _ =>
          modify_db (set_orders
            (insert k (Order.mk_row c (Order.total_amount self) now))) ;;;
          ret (Order.mk (Some k) (Some c) (Order.total_amount self) (Some now))
      end
  end.

(** UPDATE of the columns [fields] of the row [k] from the instance; the
    result says whether a row was touched. The width of [total_amount],
    [max_digits=10], is not enforced: Django 5.2 writes a wider value as
    it is, where the releases up to 5.1 refuse it when saving
    ([decimal.InvalidOperation]). *)
Definition Order_update (k : Z) (fields : list string) (self : Order.t) : M bool :=
  db <- get_db ;;
  match orders db !! k with
  | None => ret false
  | Some row =>
      let pick {A} (f : string) (new old : A) : A :=
        if bool_decide (f ∈ fields) then new else old in
      match pick "customer" (Order.customer_id self)
              (pick "customer_id" (Order.customer_id self)
                 (Some (Order.r_customer_id row))),
            pick "order_date" (Order.order_date self) (Some (Order.r_order_date row)) with
      | Some c, Some d =>
          match customers db !! c with
          | None => raise IntegrityError           (* foreign key *)
          | Some _ =>
              modify_db (set_orders (insert k
                (Order.mk_row c
                   (pick "total_amount" (Order.total_amount self)
                                        (Order.r_total_amount row))
                   d))) ;;;
              ret true
          end
      | _, _ => raise IntegrityError               (* NOT NULL *)
      end
  end.

(** [models.Model.save] on an order: what [super().save] does. An empty
    [update_fields] skips the save; a non-empty one demands an UPDATE of
    an existing row. Otherwise an instance without a key, or saved with
    [force_insert], is inserted, and one with a key is updated, or
    inserted when no row has the key. *)
Definition Model_save (now : Z) (kw : save_kwargs) (self : Order.t) : M Order.t :=
  match update_fields kw with
  | Some [] => ret self
  | Some fields =>
      if force_insert kw then raise ValueError
      else if negb (forallb (λ f, bool_decide (f ∈ order_field_names)) fields)
      then raise ValueError
      else
        match Order.id self with
        | None => raise ValueError
        | Some k =>
            touched <- Order_update k fields self ;;
            if touched then ret self else raise DatabaseError
        end
  | None =>
      db <- get_db ;;
      match Order.id self with
      | None => Order_insert now (next_pk (orders db)) self
      | Some k =>
          if force_insert kw then Order_insert now k self
          else
            touched <- Order_update k order_field_names self ;;
            if touched then ret self else Order_insert now k self
      end
  end.

(** [not self.pk] *)
Definition not_pk (pk : option Z) : bool :=
  match pk with
  | None => true
  | Some k => bool_decide (k = 0)
  end.

Definition with_total_amount (total : Z) (self : Order.t) : Order.t :=
  Order.mk (Order.id self) (Order.customer_id self) total (Order.order_date self).

(** [Order.save]:
<<
    def save(self, *args, **kwargs):
        if not self.pk:  # only calculate when creating
            total = sum(p.price for p in self.products.all())
            self.total_amount = total
        super().save( *args, **kwargs)
>> *)
Definition Order_save (now : Z) (kw : save_kwargs) (self : Order.t) : M Order.t :=
  self <- (if not_pk (Order.id self) then
             manager <- Order_products self ;;
             ps <- related_all manager ;;
             ret (with_total_amount (py_sum (Product.price <$> ps)) self)
           else ret self) ;;
  Model_save now kw self.

(** [Order.objects.create(customer=customer, order_date=order_date)]:
    a new instance ([total_amount] at its default), saved with
    [force_insert=True]. *)
Definition Order_objects_create (now : Z) (customer : Customer.t) (order_date : Z)
    : M Order.t :=
  Order_save now (mk_kwargs true None)
    (Order.mk None (Customer.id customer) 0 (Some order_date)).

(* ===================================================================== *)
(** * crm/schema.py: inputs, payloads and mutations                        *)
(* ===================================================================== *)

Module CustomerInput.
Record t : Type := mk {
  name : string;                (* String(required=True) *)
  email : string;               (* String(required=True) *)
  phone : option string         (* String(required=False) *)
}.
End CustomerInput.

Module CreateCustomerPayload.
Record t : Type := mk {
  customer : option Customer.t;
  message : option string;
  errors : list string
}.
End CreateCustomerPayload.

Module BulkCreateCustomersPayload.
Record t : Type := mk {
  customers : list Customer.t;
  errors : list string
}.
End BulkCreateCustomersPayload.

Module CreateOrderPayload.
Record t : Type := mk {
  order : option Order.t;
  errors : list string
}.
End CreateOrderPayload.

(** [errs.append(msg)] under [if cond]. *)
Definition append_if (cond : bool) (msg : string) (errs : list string) : list string :=
  if cond then errs ++ [msg] else errs.

(** Python truthiness of a list. *)
Definition nonempty {A} (l : list A) : bool :=
  match l with [] => false | _ => true end.

(** ** CreateCustomer.mutate

    [others] stands for what concurrent requests commit between this
    request's [exists()] query and its INSERT; it is the identity when the
    request runs alone. *)
Definition CreateCustomer_mutate (others : DB → DB) (now : Z)
    (input : CustomerInput.t) : M CreateCustomerPayload.t :=
  let errs := [] in
  taken <- Customer_objects_filter_email_exists (CustomerInput.email input) ;;
  let errs := append_if taken "Email already exists" errs in
  let errs := append_if (phone_rejected (CustomerInput.phone input))
                "Invalid phone format" errs in
  if nonempty errs then
    ret (CreateCustomerPayload.mk None None errs)
  else
    modify_db others ;;;
    customer <- Customer_objects_create now (CustomerInput.name input)
                  (CustomerInput.email input)
                  (or_empty (CustomerInput.phone input)) ;;
    ret (CreateCustomerPayload.mk (Some customer) (Some "Customer created") []).

(** ** BulkCreateCustomers.mutate

    The items of [input] are objects (a null item of the GraphQL list is
    not in this model), and the request runs alone: no other request
    writes between a row's [exists()] query and its [save()]. *)

Definition row_msg (idx : Z) (what : string) : string :=
  "Row " +:+ py_str idx +:+ ": " +:+ what.

(** The [errs] of one iteration, given the outcome of its email query. *)
Definition row_errs (taken : bool) (idx : Z) (item : CustomerInput.t) : list string :=
  let errs := [] in
  let errs := append_if taken (row_msg idx "Email already exists") errs in
  let errs := append_if (phone_rejected (CustomerInput.phone item))
                (row_msg idx "Invalid phone format") errs in
  let errs := append_if (bool_decide (CustomerInput.name item = ""))
                (row_msg idx "Name is required") errs in
  let errs := append_if (bool_decide (CustomerInput.email item = ""))
                (row_msg idx "Email is required") errs in
  errs.

(** The [for idx, item in enumerate(input, start=1)] loop, from index
    [idx] on, with the accumulators [created] and [errors]. *)
Fixpoint bulk_loop (now : Z) (idx : Z) (input : list CustomerInput.t)
    (created : list Customer.t) (errors : list string)
    : M (list Customer.t * list string) :=
  match input with
  | [] => ret (created, errors)
  | item :: rest =>
      taken <- Customer_objects_filter_email_exists (CustomerInput.email item) ;;
      let errs := row_errs taken idx item in
      if nonempty errs then
        bulk_loop now (idx + 1) rest created (errors ++ errs)
      else
        c <- Customer_objects_create now (CustomerInput.name item)
               (CustomerInput.email item) (or_empty (CustomerInput.phone item)) ;;
        bulk_loop now (idx + 1) rest (created ++ [c]) errors
  end.

Definition BulkCreateCustomers_mutate (now : Z) (input : list CustomerInput.t)
    : M BulkCreateCustomersPayload.t :=
  r <- atomic (bulk_loop now 1 input [] []) ;;
  ret (BulkCreateCustomersPayload.mk r.1 r.2).

(** ** CreateOrder.mutate *)

Definition invalid_products_msg (missing : gset Z) : string :=
  "Invalid product ID(s): " +:+ py_join ", " (py_str <$> py_sorted missing).

(** [int(x)] for an item of [product_ids]: [int(None)] is a [TypeError],
    and [int] of text is [prep_pk]. *)
Definition int_item (x : option string) : M Z :=
  match x with
  | Some s => prep_pk s
  | None => raise TypeError
  end.

(** [mutate] with [product_ids] as GraphQL delivers it: the argument is
    [graphene.List(graphene.ID, required=True)], a list that is present
    and whose items may be null ([None]). The [pk__in] lookup drops the
    nulls of its list; [map(int, product_ids)] does not. *)
Definition CreateOrder_mutate_items (now : Z) (customer_id : string)
    (product_ids : list (option string)) (order_date : option Z)
    : M CreateOrderPayload.t :=
  found <- try_except (c <- Customer_objects_get customer_id ;; ret (Some c))
             DoesNotExist (ret None) ;;
  match found with
  | None => ret (CreateOrderPayload.mk None ["Invalid customer ID"])
  | Some customer =>
      if negb (nonempty product_ids) then
        ret (CreateOrderPayload.mk None ["At least one product must be provided"])
      else
        products <- Product_objects_filter_pk_in (omap id product_ids) ;;
        requested <- mapM int_item product_ids ;;
        let missing : gset Z :=
          list_to_set requested ∖ list_to_set (omap Product.id products) in
        if bool_decide (missing ≠ ∅) then
          ret (CreateOrderPayload.mk None [invalid_products_msg missing])
        else
          let order_date := default now order_date in
          atomic (
            order <- Order_objects_create now customer order_date ;;
            manager <- Order_products order ;;
            related_set manager products ;;;
            let total := py_sum (Product.price <$> products) in
            let order := with_total_amount total order in
            order <- Order_save now (mk_kwargs false (Some ["total_amount"])) order ;;
            ret (CreateOrderPayload.mk (Some order) []))
  end.

(** [mutate] on a list of references that holds no null. *)
Definition CreateOrder_mutate (now : Z) (customer_id : string)
    (product_ids : list string) (order_date : option Z)
    : M CreateOrderPayload.t :=
  CreateOrder_mutate_items now customer_id (Some <$> product_ids) order_date.

(* ===================================================================== *)
(** * crm/schema.py: ordered queries                                       *)
(* ===================================================================== *)

Inductive model : Type := CustomerModel | ProductModel | OrderModel.

(** A lazy queryset: the model queried, [distinct()], and the ORDER BY
    names ([[]] is the store's unspecified default order). *)
Record QuerySet : Type := mkQuerySet {
  qs_model : model;
  qs_distinct : bool;
  qs_ordering : list string
}.

(** The names a model's queries resolve: its fields from models.py, the
    [pk] alias, the column of a foreign key, and the reverse names given
    by [related_name]. *)
Definition model_names (m : model) : list string :=
  match m with
  | CustomerModel => ["id"; "pk"; "name"; "email"; "phone"; "created_at"; "orders"]
  | ProductModel => ["id"; "pk"; "name"; "price"; "stock"; "orders"]
  | OrderModel =>
      ["id"; "pk"; "customer"; "customer_id"; "products"; "total_amount"; "order_date"]
  end.

Definition removeprefix_minus (s : string) : string :=
  match s with
  | String "-" r => r
  | _ => s
  end.

Inductive result (A : Type) : Type :=
  | Ok (a : A)
  | Err (e : exn).
Arguments Ok {A} a.
Arguments Err {A} e.

(** [Model.objects.all()] and [qs.distinct()]. *)
Definition objects_all (m : model) : QuerySet := mkQuerySet m false [].
Definition distinct (qs : QuerySet) : QuerySet :=
  mkQuerySet (qs_model qs) true (qs_ordering qs).

(** [qs.order_by(name)]: the name, less a leading [-], must resolve on
    the model, or Django raises [FieldError]. *)
Definition order_by (qs : QuerySet) (name : string) : result QuerySet :=
  if bool_decide (removeprefix_minus name ∈ model_names (qs_model qs))
  then Ok (mkQuerySet (qs_model qs) (qs_distinct qs) [name])
  else Err FieldError.

Definition ALLOWED_CUSTOMER_ORDER_FIELDS : list string :=
  ["name"; "-name"; "email"; "-email"; "created_at"; "-created_at"].
Definition ALLOWED_PRODUCT_ORDER_FIELDS : list string :=
  ["name"; "-name"; "price"; "-price"; "stock"; "-stock"; "created_at"; "-created_at"].
Definition ALLOWED_ORDER_ORDER_FIELDS : list string :=
  ["order_date"; "-order_date"; "total_amount"; "-total_amount";
   "created_at"; "-created_at"].

(** [if order_by in ALLOWED: qs = qs.order_by(order_by)]; an absent
    argument is [None], which is in no allow-list. *)
Definition resolve_ordered (qs : QuerySet) (allowed : list string)
    (order_by_arg : option string) : result QuerySet :=
  match order_by_arg with
  | Some s => if bool_decide (s ∈ allowed) then order_by qs s else Ok qs
  | None => Ok qs
  end.

Definition resolve_all_customers (order_by_arg : option string) : result QuerySet :=
  resolve_ordered (objects_all CustomerModel) ALLOWED_CUSTOMER_ORDER_FIELDS order_by_arg.

Definition resolve_all_products (order_by_arg : option string) : result QuerySet :=
  resolve_ordered (objects_all ProductModel) ALLOWED_PRODUCT_ORDER_FIELDS order_by_arg.

Definition resolve_all_orders (order_by_arg : option string) : result QuerySet :=
  resolve_ordered (distinct (objects_all OrderModel)) ALLOWED_ORDER_ORDER_FIELDS order_by_arg.

(* ===================================================================== *)
(** * Specification-side definitions                                       *)
(* ===================================================================== *)

(** The language of a regular expression. *)
Inductive matches : regex → string → Prop :=
  | matches_eps : matches Eps ""
  | matches_class p c : p c = true → matches (Class p) (String c "")
  | matches_cat r1 r2 s1 s2 :
      matches r1 s1 → matches r2 s2 → matches (Cat r1 r2) (s1 +:+ s2)
  | matches_alt_l r1 r2 s : matches r1 s → matches (Alt r1 r2) s
  | matches_alt_r r1 r2 s : matches r2 s → matches (Alt r1 r2) s
  | matches_star_nil r : matches (Star r) ""
  | matches_star_cons r s1 s2 :
      matches r s1 → matches (Star r) s2 → matches (Star r) (s1 +:+ s2).

(** Every character of [s] is in the class [p]. *)
Fixpoint all_chars (p : ascii → bool) (s : string) : bool :=
  match s with
  | EmptyString => true
  | String c s' => p c && all_chars p s'
  end.

Fixpoint last_char (s : string) : option ascii :=
  match s with
  | EmptyString => None
  | String c EmptyString => Some c
  | String _ s' => last_char s'
  end.

(** The phone format in the words of the specification: an optional
    leading [+], then digits and hyphens, total length at least 8, last
    character a digit. *)
Definition PhoneFormat_spec (s : string) : bool :=
  all_chars digit_or_hyphen (match s with String "+" r => r | _ => s end)
  && (8 <=? String.length s)%nat
  && match last_char s with Some c => is_digit c | None => false end.

(** The words of the body of PHONE_REGEX. *)
Definition phone_shape (s : string) : Prop :=
  ∃ plus d mid d',
    s = plus +:+ String d (mid +:+ String d' "")
    ∧ (plus = "" ∨ plus = "+")
    ∧ is_digit d = true
    ∧ (6 ≤ String.length mid)%nat ∧ all_chars digit_or_hyphen mid = true
    ∧ is_digit d' = true.

(** ** Reading a bulk result row by row

    Every message of bulkCreateCustomers starts with "Row i: ", [i] the
    1-based position of the row it is about; this is how a caller tells
    which rows failed. *)
Definition row_number (i : nat) : Z := 1 + Z.of_nat i.

Definition not_colon (c : ascii) : bool := negb (Ascii.eqb c ":").

Definition row_prefix (idx : Z) : string := "Row " +:+ py_str idx +:+ ": ".

(** Some message of [errors] is about row [idx]. *)
Definition row_has_error (errors : list string) (idx : Z) : bool :=
  existsb (String.prefix (row_prefix idx)) errors.

(** How many of the first [n] rows have a message in [errors]. *)
Definition rows_with_error (errors : list string) (n : nat) : nat :=
  length (filter (λ i, row_has_error errors (row_number i) = true) (seq 0 n)).

(** The checks of a bulk row that do not depend on the store. *)
Definition row_well_formed (item : CustomerInput.t) : Prop :=
  CustomerInput.name item ≠ "" ∧ CustomerInput.email item ≠ ""
  ∧ phone_rejected (CustomerInput.phone item) = false.

(** The [errs] of each iteration of the bulk loop run from the customer
    table [m] and the index [idx]: the loop, reduced to what it reports. *)
Fixpoint bulk_rows (now : Z) (m : gmap Z Customer.row) (idx : Z)
    (input : list CustomerInput.t) : list (list string) :=
  match input with
  | [] => []
  | item :: rest =>
      let errs := row_errs (email_taken m (CustomerInput.email item)) idx item in
      errs :: bulk_rows now
                (if nonempty errs then m
                 else <[next_pk m :=
                          Customer.mk_row (CustomerInput.name item)
                            (CustomerInput.email item)
                            (Some (or_empty (CustomerInput.phone item))) now]> m)
                (idx + 1) rest
  end.

(** The email [e] is held when row [k] of the run is reached: by a
    customer of the table the run started from, or by an earlier row of
    the run that was created. *)
Definition held_before (now : Z) (m : gmap Z Customer.row) (idx : Z)
    (input : list CustomerInput.t) (k : nat) (e : string) : Prop :=
  email_taken m e = true
  ∨ ∃ k' item', (k' < k)%nat ∧ input !! k' = Some item'
                ∧ CustomerInput.email item' = e
                ∧ bulk_rows now m idx input !! k' = Some [].

(** A sample store: one customer, and two products priced 10.00 and
    5.50. *)
Definition alice : Customer.row :=
  Customer.mk_row "Alice" "alice@example.com" (Some "+123456789") 100.
Definition shop : DB :=
  mkDB {[1 := alice]}
       {[1 := Product.mk_row "P1" 1000 3; 2 := Product.mk_row "P2" 550 3]}
       ∅ ∅.
Definition empty_store : DB := mkDB ∅ ∅ ∅ ∅.

(** A concurrent request that commits a customer holding the email [e]. *)
Definition rival (e : string) : DB → DB :=
  set_customers (λ m, <[next_pk m := Customer.mk_row "Rival" e (Some "") 0]> m).

(* ===================================================================== *)
(** * Reading a bulk run by what it writes                                 *)
(* ===================================================================== *)

(** The emails of a table, one per row. *)
Definition emails (m : gmap Z Customer.row) : list string :=
  Customer.r_email <$> (map_to_list m).*2.

(** The [unique=True] of [Customer.email], as a property of a table: no
    two rows hold the same email. *)
Definition emails_unique (m : gmap Z Customer.row) : Prop := NoDup (emails m).

(** The row that both customer mutations insert for an input. *)
Definition row_of (now : Z) (item : CustomerInput.t) : Customer.row :=
  Customer.mk_row (CustomerInput.name item) (CustomerInput.email item)
    (Some (or_empty (CustomerInput.phone item))) now.

(** The customers that the bulk loop creates from the customer table
    [m], and the table it leaves: the loop, reduced to what it writes. *)
Fixpoint bulk_run (now : Z) (m : gmap Z Customer.row)
    (input : list CustomerInput.t) : list Customer.t * gmap Z Customer.row :=
  match input with
  | [] => ([], m)
  | item :: rest =>
      if nonempty (row_errs (email_taken m (CustomerInput.email item)) 0 item)
      then bulk_run now m rest
      else
        let out := bulk_run now (<[next_pk m := row_of now item]> m) rest in
        (Customer.of_row (next_pk m) (row_of now item) :: out.1, out.2)
  end.

(** The message [msg'] is the message [msg], about the row [n] places
    further down. *)
Definition renumbered (n : Z) (msg msg' : string) : Prop :=
  ∃ idx what, msg = row_msg idx what ∧ msg' = row_msg (idx + n) what.

(* ===================================================================== *)
(** * Decimals, and CreateProduct.mutate                                   *)
(* ===================================================================== *)

(** A [decimal.Decimal]: the finite value [coeff * 10^exp], an infinity,
    or a NaN (quiet or signalling). The sign of a zero is not kept: no
    operation below tells the two zeros apart. *)
Inductive Decimal : Type :=
  | Finite (coeff : Z) (exp : Z)
  | Infinity (negative : bool)
  | NaN.

(** [d <= 0]. Ordering a NaN signals [decimal.InvalidOperation]: [None]. *)
Definition Decimal_le_0 (d : Decimal) : option bool :=
  match d with
  | Finite c _ => Some (c <=? 0)
  | Infinity negative => Some negative
  | NaN => None
  end.

(** [a / d] for [0 <= a] and [0 < d], rounded to the nearest integer, a
    tie to the even one ([ROUND_HALF_EVEN], the rounding of the default
    context). *)
Definition round_half_even (a d : Z) : Z :=
  let q := a / d in
  let r := a mod d in
  if 2 * r <? d then q
  else if d <? 2 * r then q + 1
  else if Z.even q then q else q + 1.

(** The value that a row of a [DecimalField(decimal_places=2)] holds for
    a decimal, in hundredths: [value.quantize(Decimal("0.01"))], rounded
    half even. A value that is not finite has no hundredths. *)
Definition to_hundredths (d : Decimal) : option Z :=
  match d with
  | Finite c e =>
      Some (if 0 <=? e + 2 then c * 10 ^ (e + 2)
            else Z.sgn c * round_half_even (Z.abs c) (10 ^ (- (e + 2))))
  | _ => None
  end.

(** The exceptions of createProduct and of the seeding script: those met
    so far, the [ValidationError] of a field that refuses a value, and
    the second exception of [Model.objects.get]. *)
Inductive exn_x : Type :=
  | Store (e : exn)
  | ValidationError
  | MultipleObjectsReturned.   (* Model.objects.get found more than one row *)

Inductive outcome_x (A : Type) : Type :=
  | Return_x (a : A) (db : DB)
  | Raise_x (e : exn_x) (db : DB).
Arguments Return_x {A} a db.
Arguments Raise_x {A} e db.

Definition set_products (f : gmap Z Product.row → gmap Z Product.row) (db : DB) : DB :=
  mkDB (customers db) (f (products db)) (orders db) (order_products db).

(** The instance that [Product.objects.create] returns: its [price] is
    the decimal that was passed, not the rounded value of the row. *)
Module CreatedProduct.
Record t : Type := mk {
  id : option Z;
  name : string;
  price : Decimal;
  stock : Z
}.
End CreatedProduct.

(** [Product.objects.create(name=.., price=.., stock=..)]: the INSERT of
    a new product. The field refuses a price that is not finite
    ([DecimalField.to_python]), and the row holds a finite one as
    [to_hundredths] makes it; [stock] is a [PositiveIntegerField], which
    the store checks to be at least 0.

    As for the total of an order in [Order_update], the width of the
    column, [max_digits=10], is not enforced. The theorems on what
    createProduct stores keep to prices of ten digits at most, where the
    releases of Django agree. *)
Definition Product_objects_create (name : string) (price : Decimal) (stock : Z)
    (db : DB) : outcome_x CreatedProduct.t :=
  match to_hundredths price with
  | None => Raise_x ValidationError db
  | Some h =>
      if stock <? 0 then Raise_x (Store IntegrityError) db
      else
        let k := next_pk (products db) in
        Return_x (CreatedProduct.mk (Some k) name price stock)
          (set_products (insert k (Product.mk_row name h stock)) db)
  end.

Module ProductInput.
Record t : Type := mk {
  name : string;                (* String(required=True) *)
  price : Decimal;              (* Decimal(required=True) *)
  stock : option Z              (* Int(required=False, default_value=0) *)
}.
End ProductInput.

Module CreateProductPayload.
Record t : Type := mk {
  product : option CreatedProduct.t;
  errors : list string
}.
End CreateProductPayload.

(** The [try] block of CreateProduct.mutate: [Decimal(str(input.price))]
    gives back the decimal it is given, [price <= 0] adds "Price must be
    positive", and the exception of a NaN comparison is caught and adds
    "Invalid price". *)
Definition price_errors (price : Decimal) (errors : list string) : list string :=
  match Decimal_le_0 price with
  | Some le => append_if le "Price must be positive" errors
  | None => errors ++ ["Invalid price"]
  end.

(** ** CreateProduct.mutate *)
Definition CreateProduct_mutate (input : ProductInput.t) (db : DB)
    : outcome_x CreateProductPayload.t :=
  let errors := [] in
  let price := ProductInput.price input in
  let errors := price_errors price errors in
  let stock := default 0 (ProductInput.stock input) in
  let errors := append_if (stock <? 0) "Stock cannot be negative" errors in
  if nonempty errors then
    Return_x (CreateProductPayload.mk None errors) db
  else
    match Product_objects_create (ProductInput.name input) price stock db with
    | Return_x p db' => Return_x (CreateProductPayload.mk (Some p) []) db'
    | Raise_x e db' => Raise_x e db'
    end.

(* ===================================================================== *)
(** * seed_db.py                                                           *)
(* ===================================================================== *)

Definition MX (A : Type) : Type := DB → outcome_x A.

Definition bind_x {A B} (m : MX A) (k : A → MX B) : MX B :=
  λ db, match m db with
        | Return_x a db' => k a db'
        | Raise_x e db' => Raise_x e db'
        end.

(** The result of [qs.get()] on the rows that match: the one row, or
    [DoesNotExist] for none and [MultipleObjectsReturned] for several. *)
Definition get_one {R A} (of_row : Z → R → A) (rows : list (Z * R)) : MX A :=
  λ db, match rows with
        | [] => Raise_x (Store DoesNotExist) db
        | [kr] => Return_x (of_row kr.1 kr.2) db
        | _ => Raise_x MultipleObjectsReturned db
        end.

(** The rows of a table whose column [key] holds [v]. *)
Definition matching {R} (key : R → string) (v : string) (m : gmap Z R)
    : list (Z * R) :=
  map_to_list (filter (λ kr, key kr.2 = v) m).

(** [Customer.objects.get(email=e)] and [Product.objects.get(name=n)]. *)
Definition Customer_objects_get_email (e : string) : MX Customer.t :=
  λ db, get_one Customer.of_row (matching Customer.r_email e (customers db)) db.

Definition Product_objects_get_name (n : string) : MX Product.t :=
  λ db, get_one Product.of_row (matching Product.r_name n (products db)) db.

(** [Customer.objects.create(name=.., email=.., phone=..)] with a phone
    that may be [None]: the column is [null=True]. *)
Definition Customer_objects_create_nullable (now : Z) (name email : string)
    (phone : option string) : M Customer.t :=
  db <- get_db ;;
  if email_taken (customers db) email then raise IntegrityError
  else
    let k := next_pk (customers db) in
    let r := Customer.mk_row name email phone now in
    modify_db (set_customers (insert k r)) ;;;
    ret (Customer.of_row k r).

(** [Model.objects.get_or_create(lookup, defaults=...)], given its [get]
    and its [create]: the row that matches, or else a new one; when the
    create is refused by a constraint, the [get] is tried once more, and
    the refusal re-raised if it still finds nothing. *)
Definition get_or_create {A B} (get : MX A) (create : MX B)
    (got : A → B) : MX (B * bool) :=
  λ db, match get db with
        | Return_x a db' => Return_x (got a, false) db'
        | Raise_x (Store DoesNotExist) db' =>
            match create db' with
            | Return_x b db'' => Return_x (b, true) db''
            | Raise_x (Store IntegrityError) _ =>
                match get db' with
                | Return_x a db'' => Return_x (got a, false) db''
                | Raise_x (Store DoesNotExist) db'' =>
                    Raise_x (Store IntegrityError) db''
                | Raise_x e db'' => Raise_x e db''
                end
            | Raise_x e _ => Raise_x e db'
            end
        | Raise_x e db' => Raise_x e db'
        end.

(** An entry of the script's [customers] list. *)
Record seed_customer : Type := mk_seed_customer {
  sc_name : string;
  sc_email : string;
  sc_phone : option string
}.

(** An entry of the script's [products] list. The price is the decimal
    that the field makes of the script's float literal; it is stored as
    [to_hundredths] rounds it. *)
Record seed_product : Type := mk_seed_product {
  sp_name : string;
  sp_price : Decimal;
  sp_stock : Z
}.

Definition seed_customers : list seed_customer :=
  [mk_seed_customer "Alice" "alice@example.com" (Some "+123456789");
   mk_seed_customer "Bob" "bob@example.com" (Some "123-456-7890");
   mk_seed_customer "Carol" "carol@example.com" None].

Definition seed_products : list seed_product :=
  [mk_seed_product "Laptop" (Finite 9999900000 (-7)) 10;
   mk_seed_product "Phone" (Finite 4999900000 (-7)) 20;
   mk_seed_product "Headphones" (Finite 9999000000 (-8)) 50].

(** [M] in [MX]; [with transaction.atomic()] around the create. *)
Definition lift_store {A} (m : M A) : MX A :=
  λ db, match m db with
        | Return a db' => Return_x a db'
        | Raise e db' => Raise_x (Store e) db'
        end.

(** [Customer.objects.get_or_create(email=c["email"], defaults=c)] *)
Definition seed_one_customer (now : Z) (c : seed_customer) : MX (Customer.t * bool) :=
  get_or_create (Customer_objects_get_email (sc_email c))
    (lift_store (atomic (Customer_objects_create_nullable now
                           (sc_name c) (sc_email c) (sc_phone c))))
    (λ found, found).

(** [Product.objects.get_or_create(name=p["name"], defaults=p)]; the
    instance is the fetched one or the created one. *)
Definition seed_one_product (p : seed_product)
    : MX ((Product.t + CreatedProduct.t) * bool) :=
  get_or_create (Product_objects_get_name (sp_name p))
    (λ db, match Product_objects_create (sp_name p) (sp_price p) (sp_stock p) db with
           | Return_x created db' => Return_x (inr created) db'
           | Raise_x e _ => Raise_x e db
           end)
    inl.

(** [for x in xs: f(x)] *)
Fixpoint for_each {A B} (f : A → MX B) (xs : list A) : MX unit :=
  match xs with
  | [] => λ db, Return_x tt db
  | x :: xs' => bind_x (f x) (λ _, for_each f xs')
  end.

(** [seed()]: the customers, then the products (the final [print] writes
    to the console only). *)
Definition seed (now : Z) : MX unit :=
  bind_x (for_each (seed_one_customer now) seed_customers)
         (λ _, for_each seed_one_product seed_products).

(** The table that [get_or_create] leaves when it looks for the rows
    whose [key] is that of [r] and creates [r] when there is none;
    [None] when several rows match. *)
Definition goc {R} (key : R → string) (m : gmap Z R) (r : R) : option (gmap Z R) :=
  match matching key (key r) m with
  | [] => Some (<[next_pk m := r]> m)
  | [_] => Some m
  | _ => None
  end.

(** [goc] for each row of [rs] in turn. *)
Fixpoint goc_all {R} (key : R → string) (m : gmap Z R) (rs : list R)
    : option (gmap Z R) :=
  match rs with
  | [] => Some m
  | r :: rs' => match goc key m r with
                | Some m' => goc_all key m' rs'
                | None => None
                end
  end.

(** The rows that the script's entries become. *)
Definition seed_customer_row (now : Z) (c : seed_customer) : Customer.row :=
  Customer.mk_row (sc_name c) (sc_email c) (sc_phone c) now.

Definition seed_product_row (p : seed_product) : Product.row :=
  Product.mk_row (sp_name p) (default 0 (to_hundredths (sp_price p))) (sp_stock p).

(** What a run of the script keeps: the rows that were there, and the
    tables of the orders. *)
Definition seed_kept (db db' : DB) : Prop :=
  (∀ k r, customers db !! k = Some r → customers db' !! k = Some r)
  ∧ (∀ k r, products db !! k = Some r → products db' !! k = Some r)
  ∧ orders db' = orders db ∧ order_products db' = order_products db.

(** The store that the script makes of an empty one at time [now]. *)
Definition seeded_store (now : Z) : DB :=
  mkDB {[1 := Customer.mk_row "Alice" "alice@example.com" (Some "+123456789") now;
         2 := Customer.mk_row "Bob" "bob@example.com" (Some "123-456-7890") now;
         3 := Customer.mk_row "Carol" "carol@example.com" None now]}
       {[1 := Product.mk_row "Laptop" 99999 10;
         2 := Product.mk_row "Phone" 49999 20;
         3 := Product.mk_row "Headphones" 9999 50]}
       ∅ ∅.

(** The store that the script makes of [shop] at time 7. *)
Definition seeded_shop : DB :=
  mkDB {[1 := alice;
         2 := Customer.mk_row "Bob" "bob@example.com" (Some "123-456-7890") 7;
         3 := Customer.mk_row "Carol" "carol@example.com" None 7]}
       {[1 := Product.mk_row "P1" 1000 3; 2 := Product.mk_row "P2" 550 3;
         3 := Product.mk_row "Laptop" 99999 10;
         4 := Product.mk_row "Phone" 49999 20;
         5 := Product.mk_row "Headphones" 9999 50]}
       ∅ ∅.

(** A store where two products share the name of one of the script's. *)
Definition two_laptops : DB :=
  mkDB {[1 := alice]}
       {[1 := Product.mk_row "Laptop" 120000 1; 2 := Product.mk_row "Laptop" 99999 4]}
       ∅ ∅.

(** [shop] with an order of Alice's that has a row and no product yet. *)
Definition shop_with_order : DB :=
  set_orders (insert 5 (Order.mk_row 1 0 100)) shop.

(* ===================================================================== *)
(** * The model on small inputs                                            *)
(* ===================================================================== *)

Example phone_seed_alice : PHONE_REGEX_match "+123456789" = true.
Proof. reflexivity. Qed.

Example phone_seed_bob : PHONE_REGEX_match "123-456-7890" = true.
Proof. reflexivity. Qed.

Example phone_too_short : PHONE_REGEX_match "1234567" = false.
Proof. reflexivity. Qed.

Example int_examples :
  py_int " 12 " = Some 12 ∧ py_int "-5" = Some (-5) ∧ py_int "1_000" = Some 1000
  ∧ py_int "abc" = None ∧ py_int "1__0" = None ∧ py_int "" = None
  ∧ py_int "+ 1" = None ∧ py_int "007" = Some 7 ∧ py_int "1_" = None
  ∧ py_int "1.0" = None.
Proof. repeat split; reflexivity. Qed.

(** [int] strips TAB..CR and the space, and no other control character. *)
Example int_whitespace :
  py_int (String "009" "12") = Some 12 ∧ py_int (String "013" "12") = Some 12
  ∧ py_int (String "028" "1") = None ∧ py_int (String "031" "1") = None
  ∧ py_int (String "1" (String "028" "")) = None.
Proof. repeat split; reflexivity. Qed.

Example str_examples :
  py_str 999 = "999" ∧ py_str (-5) = "-5" ∧ py_str 0 = "0".
Proof. repeat split; vm_compute; reflexivity. Qed.

Example sorted_example :
  py_sorted (list_to_set [999; 3; -2; 3]) = [-2; 3; 999].
Proof. vm_compute. reflexivity. Qed.

Example join_example : py_join ", " ["-3"; "999"; "1000"] = "-3, 999, 1000".
Proof. reflexivity. Qed.

(** [Order.save] on an instance that has a key: with
    [update_fields=["total_amount"]] it writes that column of the row and
    nothing else. *)
Example order_save_update_fields :
  Order_save 7 (mk_kwargs false (Some ["total_amount"]))
    (Order.mk (Some 5) (Some 1) 1550 (Some 3))
    (set_orders (insert 5 (Order.mk_row 1 0 100)) shop)
  = Return (Order.mk (Some 5) (Some 1) 1550 (Some 3))
      (set_orders (insert 5 (Order.mk_row 1 1550 100)) shop).
Proof. vm_compute. reflexivity. Qed.

(** [order.products.set(objs)] writes one row per distinct product. *)
Example related_set_distinct :
  ∃ db', related_set 5 [Product.mk (Some 1) "P1" 1000 3;
                        Product.mk (Some 1) "P1" 1000 3;
                        Product.mk (Some 2) "P2" 550 3] shop_with_order
           = Return tt db'
         ∧ elements (order_products db') ≡ₚ [(5, 1); (5, 2)].
Proof. eexists. split; [reflexivity|]. vm_compute. reflexivity. Qed.

(* ===================================================================== *)
(** * Strings                                                              *)
(* ===================================================================== *)

Lemma app_cons c s t : String c s +:+ t = String c (s +:+ t).
Proof. reflexivity. Qed.

Lemma app_empty_l s : "" +:+ s = s.
Proof. reflexivity. Qed.

Lemma app_empty_r s : s +:+ "" = s.
Proof. induction s as [|c s IH]; [done|]. by rewrite app_cons, IH. Qed.

Lemma app_assoc_s s t u : (s +:+ t) +:+ u = s +:+ t +:+ u.
Proof. induction s as [|c s IH]; [done|]. by rewrite !app_cons, IH. Qed.

Lemma app_eq_empty s t : s +:+ t = "" → s = "" ∧ t = "".
Proof. destruct s; [done|]. by rewrite app_cons. Qed.

Lemma length_app_s s t :
  String.length (s +:+ t) = (String.length s + String.length t)%nat.
Proof. induction s as [|c s IH]; [done|]. rewrite app_cons. simpl. by rewrite IH. Qed.

Lemma all_chars_app p s t :
  all_chars p (s +:+ t) = all_chars p s && all_chars p t.
Proof.
  induction s as [|c s IH]; [done|].
  rewrite app_cons. simpl. by rewrite IH, andb_assoc.
Qed.

(* ===================================================================== *)
(** * The derivative matcher decides the language                          *)
(* ===================================================================== *)

Lemma nullable_matches r : nullable r = true ↔ matches r "".
Proof.
  split.
  - induction r as [| |p|r1 IH1 r2 IH2|r1 IH1 r2 IH2|r IH]; simpl; intros Hn;
      try discriminate.
    + constructor.
    + apply andb_true_iff in Hn as [H1 H2].
      change "" with ("" +:+ ""). constructor; auto.
    + apply orb_true_iff in Hn as [H|H]; [apply matches_alt_l|apply matches_alt_r]; auto.
    + constructor.
  - intros Hm. remember "" as s eqn:Hs.
    induction Hm as [|p c Hp|r1 r2 s1 s2 _ IH1 _ IH2|r1 r2 s _ IH|r1 r2 s _ IH| |];
      simpl; try done.
    + apply app_eq_empty in Hs as [-> ->]. by rewrite IH1, IH2.
    + by rewrite IH.
    + rewrite IH by done. apply orb_true_r.
Qed.

(** A non-empty word of [Star r] starts with a non-empty word of [r]. *)
Lemma matches_star_cons_inv r c s :
  matches (Star r) (String c s) →
  ∃ s1 s2, s = s1 +:+ s2 ∧ matches r (String c s1) ∧ matches (Star r) s2.
Proof.
  intros Hm. remember (Star r) as r' eqn:Hr. remember (String c s) as w eqn:Hw.
  revert s Hw.
  induction Hm as [| | | | | |r0 s1 s2 H1 _ H2 IH2]; intros t Hw; try discriminate.
  injection Hr as ->.
  destruct s1 as [|c1 s1].
  - rewrite app_empty_l in Hw. by apply IH2.
  - rewrite app_cons in Hw. injection Hw as -> <-. eauto.
Qed.

Lemma matches_cat_cons_inv r1 r2 c s :
  matches (Cat r1 r2) (String c s) →
  (∃ s1 s2, s = s1 +:+ s2 ∧ matches r1 (String c s1) ∧ matches r2 s2)
  ∨ (matches r1 "" ∧ matches r2 (String c s)).
Proof.
  intros Hm. inversion Hm as [| |? ? s1 s2 H1 H2 Hr Hs| | | |]; subst.
  destruct s1 as [|c1 s1].
  - rewrite app_empty_l in Hs. subst. by right.
  - rewrite app_cons in Hs. injection Hs as -> <-. left. eauto.
Qed.

Lemma deriv_matches c r s : matches (deriv c r) s ↔ matches r (String c s).
Proof.
  revert s. induction r as [| |p|r1 IH1 r2 IH2|r1 IH1 r2 IH2|r IH]; intros s; simpl.
  - split; inversion 1.
  - split; inversion 1.
  - destruct (p c) eqn:Hp; split; intros Hm.
    + inversion Hm; subst. by constructor.
    + inversion Hm; subst. constructor.
    + inversion Hm.
    + inversion Hm; subst. congruence.
  - split.
    + intros Hm.
      assert (matches (Cat (deriv c r1) r2) s → matches (Cat r1 r2) (String c s)) as Hcat.
      { intros Hc. inversion Hc as [| |? ? s1 s2 H1 H2| | | |]; subst.
        rewrite <-app_cons. constructor; [by apply IH1|done]. }
      destruct (nullable r1) eqn:Hn; [|by apply Hcat].
      inversion Hm; subst; [by apply Hcat|].
      change (String c s) with ("" +:+ String c s).
      constructor; [by apply nullable_matches|by apply IH2].
    + intros Hm. apply matches_cat_cons_inv in Hm as [(s1 & s2 & -> & H1 & H2)|[H1 H2]].
      * assert (matches (Cat (deriv c r1) r2) (s1 +:+ s2)) as Hc.
        { constructor; [by apply IH1|done]. }
        destruct (nullable r1); [by apply matches_alt_l|done].
      * apply nullable_matches in H1. rewrite H1.
        apply matches_alt_r. by apply IH2.
  - split; intros Hm; inversion Hm; subst.
    + apply matches_alt_l. by apply IH1.
    + apply matches_alt_r. by apply IH2.
    + apply matches_alt_l. by apply IH1.
    + apply matches_alt_r. by apply IH2.
  - split.
    + intros Hm. inversion Hm as [| |? ? s1 s2 H1 H2| | | |]; subst.
      rewrite <-app_cons. constructor; [by apply IH|done].
    + intros Hm. apply matches_star_cons_inv in Hm as (s1 & s2 & -> & H1 & H2).
      constructor; [by apply IH|done].
Qed.

Lemma fullmatch_matches r s : fullmatch r s = true ↔ matches r s.
Proof.
  revert r. induction s as [|c s IH]; intros r; simpl.
  - apply nullable_matches.
  - rewrite IH. apply deriv_matches.
Qed.

(* ===================================================================== *)
(** * The language of PHONE_REGEX                                          *)
(* ===================================================================== *)

Lemma matches_cat_iff r1 r2 s :
  matches (Cat r1 r2) s ↔ ∃ s1 s2, s = s1 +:+ s2 ∧ matches r1 s1 ∧ matches r2 s2.
Proof.
  split.
  - inversion 1; subst. eauto.
  - intros (s1 & s2 & -> & H1 & H2). by constructor.
Qed.

Lemma matches_class_iff p s :
  matches (Class p) s ↔ ∃ c, s = String c "" ∧ p c = true.
Proof.
  split.
  - inversion 1; subst. eauto.
  - intros (c & -> & Hp). by constructor.
Qed.

Lemma matches_star_class p s :
  matches (Star (Class p)) s ↔ all_chars p s = true.
Proof.
  split.
  - intros Hm. remember (Star (Class p)) as r eqn:Hr.
    induction Hm as [| | | | | |r0 s1 s2 H1 _ _ IH2]; try discriminate; [done|].
    injection Hr as ->. inversion H1; subst.
    rewrite app_cons, app_empty_l. simpl. rewrite IH2 by done. by rewrite andb_true_r.
  - induction s as [|c s IH]; simpl; intros Ha; [constructor|].
    apply andb_true_iff in Ha as [Hc Hs].
    change (String c s) with (String c "" +:+ s).
    constructor; [by constructor|auto].
Qed.

Lemma matches_atleast_class n p s :
  matches (AtLeast n (Class p)) s ↔
  (n ≤ String.length s)%nat ∧ all_chars p s = true.
Proof.
  revert s. induction n as [|n IH]; intros s; simpl.
  - rewrite matches_star_class. split; [intros ?; split; [lia|done]|by intros [_ ?]].
  - rewrite matches_cat_iff. split.
    + intros (s1 & s2 & -> & H1 & H2).
      apply matches_class_iff in H1 as (c & -> & Hc). apply IH in H2 as [Hlen Hall].
      rewrite app_cons, app_empty_l. simpl. rewrite Hc, Hall. split; [lia|done].
    + intros [Hlen Hall]. destruct s as [|c s]; simpl in *; [lia|].
      apply andb_true_iff in Hall as [Hc Hs].
      exists (String c ""), s. split; [done|]. split; [by constructor|].
      apply IH. split; [lia|done].
Qed.

Lemma matches_opt_chr a s :
  matches (Opt (chr a)) s ↔ s = "" ∨ s = String a "".
Proof.
  unfold Opt, chr. split.
  - inversion 1 as [| | |? ? ? H1|? ? ? H1| |]; subst.
    + inversion H1 as [|? c Hc| | | | |]; subst. right.
      apply Ascii.eqb_eq in Hc. by subst.
    + inversion H1. by left.
  - intros [->| ->].
    + apply matches_alt_r. constructor.
    + apply matches_alt_l. constructor. apply Ascii.eqb_refl.
Qed.

Lemma matches_PHONE_REGEX s : matches PHONE_REGEX s ↔ phone_shape s.
Proof.
  unfold PHONE_REGEX, phone_shape. split.
  - intros Hm.
    apply matches_cat_iff in Hm as (plus & s1 & -> & Hplus & Hm).
    apply matches_cat_iff in Hm as (sd & s2 & -> & Hd & Hm).
    apply matches_cat_iff in Hm as (mid & sd' & -> & Hmid & Hd').
    apply matches_opt_chr in Hplus.
    apply matches_class_iff in Hd as (d & -> & Hd).
    apply matches_class_iff in Hd' as (d' & -> & Hd').
    apply matches_atleast_class in Hmid as [Hlen Hall].
    exists plus, d, mid, d'. by rewrite app_cons, app_empty_l.
  - intros (plus & d & mid & d' & -> & Hplus & Hd & Hlen & Hall & Hd').
    constructor; [by apply matches_opt_chr|].
    change (String d (mid +:+ String d' "")) with (String d "" +:+ mid +:+ String d' "").
    constructor; [by constructor|].
    constructor; [by apply matches_atleast_class|by constructor].
Qed.

Lemma chomp_Some s s' : chomp s = Some s' ↔ s = s' +:+ String LF "".
Proof.
  revert s'. induction s as [|c s IH]; intros s'; simpl.
  - split; [done|]. by intros []%eq_sym%app_eq_empty.
  - destruct s as [|c2 s2].
    + destruct (Ascii.eqb c LF) eqn:Hc.
      * apply Ascii.eqb_eq in Hc as ->. split; [by intros [= <-]|].
        destruct s' as [|? [|]]; rewrite ?app_cons, ?app_empty_l; by intros [=].
      * apply Ascii.eqb_neq in Hc. split; [done|].
        destruct s' as [|? [|]]; rewrite ?app_cons, ?app_empty_l; intros [=]; by subst.
    + destruct s' as [|c' s']; rewrite ?app_cons, ?app_empty_l.
      * split; [|done]. by destruct (chomp (String c2 s2)).
      * specialize (IH s'). destruct (chomp (String c2 s2)) as [t|]; simpl.
        -- split.
           ++ intros [= -> ->]. f_equal. by apply IH.
           ++ intros [= -> Heq]. apply IH in Heq. congruence.
        -- split; [done|]. intros [= -> Heq]. by apply IH in Heq.
Qed.

(** C7, as the specification words it, fails: a string of eight
    characters that begins with a hyphen, or that reaches eight characters
    only by counting the [+], fits the description and is refused by
    PHONE_REGEX; and the pattern accepts a number followed by a line
    feed, whose last character is no digit. *)
Lemma phone_format_spec_counterexample :
  PhoneFormat_spec "-1234567" = true ∧ PHONE_REGEX_match "-1234567" = false
  ∧ PhoneFormat_spec "+1234567" = true ∧ PHONE_REGEX_match "+1234567" = false
  ∧ PhoneFormat_spec ("12345678" +:+ String LF "") = false
  ∧ PHONE_REGEX_match ("12345678" +:+ String LF "") = true.
Proof. repeat split; reflexivity. Qed.

(** C7, amended. PHONE_REGEX accepts exactly the strings made of an
    optional leading [+], one digit, at least six digits or hyphens and a
    final digit (eight characters or more after the [+]), optionally
    followed by one line feed. An absent or empty phone is never
    rejected by the guard of createCustomer and of each bulk row; a
    non-empty one is rejected exactly when the pattern does not match. *)
Theorem phone_format_accepts_exactly :
  (∀ s, PHONE_REGEX_match s = true ↔
        ∃ body nl, s = body +:+ nl ∧ phone_shape body
                   ∧ (nl = "" ∨ nl = String LF ""))
  ∧ phone_rejected None = false
  ∧ phone_rejected (Some "") = false
  ∧ (∀ c s, phone_rejected (Some (String c s))
            = negb (PHONE_REGEX_match (String c s))).
Proof.
  split; [|done].
  intros s. unfold PHONE_REGEX_match, re_match_anchored.
  rewrite orb_true_iff, fullmatch_matches, matches_PHONE_REGEX. split.
  - intros [Hs|Hs].
    + exists s, "". rewrite app_empty_r. auto.
    + destruct (chomp s) as [s'|] eqn:Hc; [|done].
      apply chomp_Some in Hc. apply fullmatch_matches, matches_PHONE_REGEX in Hs.
      exists s', (String LF ""). auto.
  - intros (body & nl & -> & Hb & [->| ->]).
    + left. by rewrite app_empty_r.
    + right. assert (chomp (body +:+ String LF "") = Some body) as ->
        by by apply chomp_Some.
      by apply fullmatch_matches, matches_PHONE_REGEX.
Qed.

(* ===================================================================== *)
(** * The store monad and the ORM operations                               *)
(* ===================================================================== *)

Lemma bind_Return {A B} (m : M A) (k : A → M B) db a db' :
  m db = Return a db' → bind m k db = k a db'.
Proof. unfold bind. by intros ->. Qed.

Lemma bind_Raise {A B} (m : M A) (k : A → M B) db e db' :
  m db = Raise e db' → bind m k db = Raise e db'.
Proof. unfold bind. by intros ->. Qed.

(** ** The store side: fresh keys and held emails *)

Lemma next_pk_above {A} (m : gmap Z A) k : is_Some (m !! k) → k < next_pk m.
Proof.
  intros [x Hx]. unfold next_pk.
  apply elem_of_map_to_list in Hx.
  assert (k ∈ (map_to_list m).*1) as Hk.
  { apply list_elem_of_fmap. by exists (k, x). }
  revert Hk. generalize ((map_to_list m).*1). intros l.
  induction l as [|y l IH]; [by intros ?%elem_of_nil|].
  intros [->|Hk]%elem_of_cons; simpl; [lia|]. specialize (IH Hk). lia.
Qed.

Lemma next_pk_fresh {A} (m : gmap Z A) : m !! next_pk m = None.
Proof.
  destruct (m !! next_pk m) eqn:Hk; [|done].
  assert (next_pk m < next_pk m) by (apply next_pk_above; eauto). lia.
Qed.

Lemma email_taken_true m e :
  email_taken m e = true ↔ ∃ k r, m !! k = Some r ∧ Customer.r_email r = e.
Proof.
  unfold email_taken. rewrite bool_decide_eq_true. apply map_Exists_lookup.
Qed.

(** After the insert of a new customer the held emails are the old ones
    and the new one. *)
Lemma email_taken_insert m r e :
  email_taken (<[next_pk m := r]> m) e = true
  ↔ Customer.r_email r = e ∨ email_taken m e = true.
Proof.
  rewrite !email_taken_true. split.
  - intros (k & r' & Hk & He).
    destruct (decide (k = next_pk m)) as [->|Hne].
    + rewrite lookup_insert_eq in Hk. left. congruence.
    + rewrite lookup_insert_ne in Hk by done. right. eauto.
  - intros [He|(k & r' & Hk & He)].
    + exists (next_pk m), r. by rewrite lookup_insert_eq.
    + exists k, r'. split; [|done].
      rewrite lookup_insert_ne; [done|].
      intros <-. by rewrite next_pk_fresh in Hk.
Qed.

(** References that all parse are prepared without touching the store. *)
Lemma mapM_prep_pk_Return ids ks db :
  Forall2 (λ s k, py_int s = Some k) ids ks →
  mapM prep_pk ids db = Return ks db.
Proof.
  induction 1 as [|s k ids ks Hs _ IH]; [done|].
  cbn [mapM].
  erewrite bind_Return by (unfold prep_pk; rewrite Hs; reflexivity).
  by erewrite bind_Return by exact IH.
Qed.

(** One malformed reference makes the preparation raise. *)
Lemma mapM_prep_pk_Raise ids db :
  Exists (λ s, py_int s = None) ids →
  mapM prep_pk ids db = Raise ValueError db.
Proof.
  induction ids as [|s ids IH]; intros Hex; [by apply Exists_nil in Hex|].
  cbn [mapM].
  destruct (py_int s) as [k|] eqn:Hs.
  - apply Exists_cons in Hex as [Hbad|Hex]; [congruence|].
    erewrite bind_Return by (unfold prep_pk; rewrite Hs; reflexivity).
    by erewrite bind_Raise by by apply IH.
  - by erewrite bind_Raise by (unfold prep_pk; rewrite Hs; reflexivity).
Qed.

Lemma Customer_objects_get_found customer_id k r db :
  py_int customer_id = Some k → customers db !! k = Some r →
  Customer_objects_get customer_id db = Return (Customer.of_row k r) db.
Proof.
  intros Hk Hr. unfold Customer_objects_get, bind, prep_pk, get_db.
  rewrite Hk. simpl. by rewrite Hr.
Qed.

Lemma Customer_objects_get_absent customer_id k db :
  py_int customer_id = Some k → customers db !! k = None →
  Customer_objects_get customer_id db = Raise DoesNotExist db.
Proof.
  intros Hk Hr. unfold Customer_objects_get, bind, prep_pk, get_db.
  rewrite Hk. simpl. by rewrite Hr.
Qed.

(** The keys of fetched instances are the keys of their rows. *)
Lemma instances_ids (m : gmap Z Product.row) :
  omap Product.id (instances m) = (map_to_list m).*1.
Proof.
  unfold instances. induction (map_to_list m) as [|[k r] l IH]; [done|].
  rewrite !fmap_cons. cbn [omap list_omap Product.of_row Product.id fst].
  by f_equal.
Qed.

(** [missing = set(map(int, product_ids)) - set(p.id for p in products)]
    holds the requested keys that have no row. *)
Lemma elem_of_missing (ks : list Z) (m : gmap Z Product.row) (k : Z) :
  k ∈ (list_to_set ks
       ∖ list_to_set (omap Product.id (instances (filter (λ kr, kr.1 ∈ ks) m)))
       : gset Z)
  ↔ k ∈ ks ∧ m !! k = None.
Proof.
  rewrite instances_ids, elem_of_difference, elem_of_list_to_set, <-dom_alt.
  rewrite elem_of_dom. unfold is_Some. setoid_rewrite map_lookup_filter_Some.
  simpl. split.
  - intros [Hk Hno]. split; [done|].
    destruct (m !! k) as [r|] eqn:Hr; [|done]. destruct Hno. eauto.
  - intros [Hk Hno]. split; [done|]. intros (r & Hr & _). congruence.
Qed.



(** When every requested key has a row, nothing is missing. *)
Lemma missing_empty (missing : gset Z) (ks : list Z) (m : gmap Z Product.row) :
  (∀ k, k ∈ missing ↔ k ∈ ks ∧ m !! k = None) →
  Forall (λ k, is_Some (m !! k)) ks →
  missing = ∅.
Proof.
  intros Hmissing Hall. apply set_eq. intros k.
  rewrite Hmissing. split; [|by intros ?%not_elem_of_empty].
  intros [Hk Hnone]. destruct (proj1 (Forall_forall _ _) Hall k Hk) as [r Hr].
  congruence.
Qed.

(** Keys that have a row can be bound. *)
Lemma forallb_bound_stored (ks : list Z) (m : gmap Z Product.row) :
  Forall (λ k, is_Some (m !! k)) ks →
  forallb (λ k, int64 k || bool_decide (is_Some (m !! k))) ks = true.
Proof.
  intros Hall. apply forallb_forall. intros k Hk%list_elem_of_In.
  rewrite bool_decide_true; [apply orb_true_r|].
  by apply (proj1 (Forall_forall _ _) Hall).
Qed.


(** The fetch of references that all parse and can be bound: the
    instances of the rows whose key was requested. *)
Lemma Product_objects_filter_pk_in_Return ids ks db :
  Forall2 (λ s k, py_int s = Some k) ids ks →
  forallb (λ k, int64 k || bool_decide (is_Some (products db !! k))) ks = true →
  Product_objects_filter_pk_in ids db
  = Return (instances (filter (λ kr, kr.1 ∈ ks) (products db))) db.
Proof.
  intros Hks Hbound. unfold Product_objects_filter_pk_in.
  erewrite bind_Return by by apply mapM_prep_pk_Return.
  erewrite bind_Return by reflexivity. by rewrite Hbound.
Qed.

(** A reference that parses to a key of more than 64 bits makes the
    fetch raise. *)
Lemma Product_objects_filter_pk_in_overflow ids ks db :
  Forall2 (λ s k, py_int s = Some k) ids ks →
  forallb (λ k, int64 k || bool_decide (is_Some (products db !! k))) ks = false →
  Product_objects_filter_pk_in ids db = Raise OverflowError db.
Proof.
  intros Hks Hwide. unfold Product_objects_filter_pk_in.
  erewrite bind_Return by by apply mapM_prep_pk_Return.
  erewrite bind_Return by reflexivity. by rewrite Hwide.
Qed.

(** A malformed reference makes the fetch raise, whatever the others are. *)
Lemma Product_objects_filter_pk_in_malformed ids db :
  Exists (λ s, py_int s = None) ids →
  Product_objects_filter_pk_in ids db = Raise ValueError db.
Proof.
  intros Hbad. unfold Product_objects_filter_pk_in.
  by erewrite bind_Raise by by apply mapM_prep_pk_Raise.
Qed.

(** [Order.objects.create] for a customer that has a row always raises:
    the new instance has no key, so [Order.save] takes its
    [if not self.pk] branch, and the access to [self.products] there is
    refused. Nothing is written. *)
Lemma Order_objects_create_raises now k r order_date db :
  customers db !! k = Some r →
  Order_objects_create now (Customer.of_row k r) order_date db
  = Raise ValueError db.
Proof.
  intros Hr. unfold Order_objects_create, Order_save. cbn [Order.id not_pk].
  erewrite bind_Raise; [done|]. erewrite bind_Raise; [done|].
  unfold Order_products. cbn [Order.id].
  erewrite bind_Return; [done|].
  unfold Order_str. cbn [Order.customer_id Customer.of_row Customer.id].
  erewrite bind_Return by reflexivity. by rewrite Hr.
Qed.

(** A list without a null, as a list of items. *)
Lemma omap_id_Some {A} (l : list A) : omap id (Some <$> l) = l.
Proof. induction l as [|x l IH]; [done|]. cbn. by rewrite IH. Qed.

Lemma mapM_int_item_Some (l : list string) :
  mapM int_item (Some <$> l) = mapM prep_pk l.
Proof.
  induction l as [|s l IH]; [done|].
  rewrite fmap_cons. cbn [mapM int_item]. by rewrite IH.
Qed.

Lemma nonempty_fmap {A B} (f : A → B) (l : list A) :
  nonempty (f <$> l) = nonempty l.
Proof. by destruct l. Qed.

(** createOrder up to its branch on [missing]: with a customer found, a
    non-empty reference list and references that all parse, the call is
    decided by the set of requested keys without a row. *)
Lemma CreateOrder_mutate_validated now db customer_id ck crow product_ids ks order_date :
  py_int customer_id = Some ck → customers db !! ck = Some crow →
  product_ids ≠ [] →
  Forall2 (λ s k, py_int s = Some k) product_ids ks →
  forallb (λ k, int64 k || bool_decide (is_Some (products db !! k))) ks = true →
  ∃ missing : gset Z,
    (∀ k, k ∈ missing ↔ k ∈ ks ∧ products db !! k = None)
    ∧ CreateOrder_mutate now customer_id product_ids order_date db
      = if bool_decide (missing ≠ ∅)
        then Return (CreateOrderPayload.mk None [invalid_products_msg missing]) db
        else Raise ValueError db.
Proof.
  intros Hck Hcrow Hne Hks Hbound.
  eexists. split; [apply elem_of_missing|].
  unfold CreateOrder_mutate, CreateOrder_mutate_items.
  rewrite omap_id_Some, mapM_int_item_Some, nonempty_fmap.
  erewrite bind_Return; last first.
  { unfold try_except. erewrite bind_Return by by apply Customer_objects_get_found.
    reflexivity. }
  simpl. destruct product_ids as [|s ids]; [done|].
  cbn [nonempty negb].
  erewrite bind_Return by by apply Product_objects_filter_pk_in_Return.
  erewrite bind_Return by by apply mapM_prep_pk_Return.
  case_bool_decide; [done|].
  unfold atomic. erewrite bind_Raise by by apply Order_objects_create_raises. done.
Qed.

(** With a customer found and references that all parse, one that does
    not fit 64 bits makes the call raise: the fetch cannot bind it. *)
Lemma CreateOrder_mutate_overflow now db customer_id ck crow product_ids ks order_date :
  py_int customer_id = Some ck → customers db !! ck = Some crow →
  Forall2 (λ s k, py_int s = Some k) product_ids ks →
  forallb (λ k, int64 k || bool_decide (is_Some (products db !! k))) ks = false →
  CreateOrder_mutate now customer_id product_ids order_date db
  = Raise OverflowError db.
Proof.
  intros Hck Hcrow Hks Hwide.
  unfold CreateOrder_mutate, CreateOrder_mutate_items.
  rewrite omap_id_Some, mapM_int_item_Some, nonempty_fmap.
  erewrite bind_Return; last first.
  { unfold try_except. erewrite bind_Return by by apply Customer_objects_get_found.
    reflexivity. }
  simpl. destruct product_ids as [|s ids].
  { by apply Forall2_nil_inv_l in Hks as ->. }
  cbn [nonempty negb].
  by erewrite bind_Raise by by eapply Product_objects_filter_pk_in_overflow.
Qed.

(* ===================================================================== *)
(** * createOrder                                                          *)
(* ===================================================================== *)






(** The example of the specification: ids [1, 999] with only 1 existing. *)
Example create_order_1_999 :
  CreateOrder_mutate 7 "1" ["1"; "999"] None shop
  = Return (CreateOrderPayload.mk None ["Invalid product ID(s): 999"]) shop.
Proof. vm_compute. reflexivity. Qed.

Example create_order_missing_sorted :
  CreateOrder_mutate 7 "1" ["1000"; "999"; "-3"; "999"; "2"] None shop
  = Return (CreateOrderPayload.mk None ["Invalid product ID(s): -3, 999, 1000"]) shop.
Proof. vm_compute. reflexivity. Qed.

(** C1, on the code. A createOrder call with an existing customer and a
    non-empty list of product references that all resolve creates no
    order: [Order.objects.create] runs [Order.save] on an instance
    without a primary key, [Order.save] reads [self.products] there, and
    Django refuses that access with [ValueError]. The exception leaves
    the atomic block, and the store is as before: no total is stored. *)
Theorem create_order_valid_call_raises
    now db customer_id ck crow product_ids ks order_date :
  py_int customer_id = Some ck → customers db !! ck = Some crow →
  product_ids ≠ [] →
  Forall2 (λ s k, py_int s = Some k) product_ids ks →
  Forall (λ k, is_Some (products db !! k)) ks →
  CreateOrder_mutate now customer_id product_ids order_date db
  = Raise ValueError db.
Proof.
  intros Hck Hcrow Hne Hks Hall.
  destruct (CreateOrder_mutate_validated now db customer_id ck crow product_ids
              ks order_date Hck Hcrow Hne Hks (forallb_bound_stored _ _ Hall))
    as (missing & Hmissing & ->).
  rewrite bool_decide_false; [done|].
  intros Hmiss. apply Hmiss. by eapply missing_empty.
Qed.

(** C1 on the sample store: the products priced 10.00 and 5.50. *)
Lemma create_order_valid_call_raises_witness :
  CreateOrder_mutate 7 "1" ["1"; "2"] None shop = Raise ValueError shop.
Proof.
  apply (create_order_valid_call_raises 7 shop "1" 1 alice ["1"; "2"] [1; 2] None).
  - reflexivity.
  - reflexivity.
  - discriminate.
  - repeat constructor.
  - repeat constructor; eexists; reflexivity.
Defined.

(** C10, on the code. When the reference list names an existing product
    more than once (and every reference resolves), the fetch returns each
    distinct product once, so validation passes; the call then fails like
    every other valid call: [Order.objects.create] raises, and no order
    and no association row is written. *)
Theorem create_order_duplicate_ids_raises
    now db customer_id ck crow product_ids ks order_date :
  py_int customer_id = Some ck → customers db !! ck = Some crow →
  Forall2 (λ s k, py_int s = Some k) product_ids ks →
  Forall (λ k, is_Some (products db !! k)) ks →
  ¬ NoDup ks →
  (∃ ps, Product_objects_filter_pk_in product_ids db = Return ps db
         ∧ NoDup (omap Product.id ps)
         ∧ ∀ k, k ∈ omap Product.id ps ↔ k ∈ ks)
  ∧ CreateOrder_mutate now customer_id product_ids order_date db
    = Raise ValueError db.
Proof.
  intros Hck Hcrow Hks Hall Hdup. split.
  - eexists.
    split; [by apply Product_objects_filter_pk_in_Return, forallb_bound_stored|].
    rewrite instances_ids. split; [apply NoDup_fst_map_to_list|].
    intros k. rewrite list_elem_of_fmap. split.
    + intros ([k' r] & -> & [_ Hin]%elem_of_map_to_list%map_lookup_filter_Some).
      done.
    + intros Hk. destruct (proj1 (Forall_forall _ _) Hall k Hk) as [r Hr].
      exists (k, r). split; [done|].
      by apply elem_of_map_to_list, map_lookup_filter_Some.
  - assert (product_ids ≠ []) as Hne.
    { intros ->. apply Forall2_nil_inv_l in Hks as ->. apply Hdup. constructor. }
    destruct (CreateOrder_mutate_validated now db customer_id ck crow product_ids
                ks order_date Hck Hcrow Hne Hks (forallb_bound_stored _ _ Hall))
      as (missing & Hmissing & ->).
    rewrite bool_decide_false; [done|].
    intros Hmiss. apply Hmiss. by eapply missing_empty.
Qed.

(** C10 on the sample store: product 1 named twice. *)
Lemma create_order_duplicate_ids_raises_witness :
  (∃ ps, Product_objects_filter_pk_in ["1"; "1"] shop = Return ps shop
         ∧ NoDup (omap Product.id ps)
         ∧ ∀ k, k ∈ omap Product.id ps ↔ k ∈ [1; 1])
  ∧ CreateOrder_mutate 7 "1" ["1"; "1"] None shop = Raise ValueError shop.
Proof.
  apply (create_order_duplicate_ids_raises 7 shop "1" 1 alice ["1"; "1"] [1; 1] None).
  - reflexivity.
  - reflexivity.
  - repeat constructor.
  - repeat constructor; eexists; reflexivity.
  - intros Hnd. apply NoDup_cons in Hnd as [Hnotin _]. apply Hnotin. left.
Defined.

(** C6, on the code. With an existing customer, a product reference that
    is not numeric makes createOrder raise [ValueError]: no payload, and
    so no [errors] field, is returned. *)
Theorem create_order_malformed_reference_raises
    now db customer_id ck crow product_ids order_date :
  py_int customer_id = Some ck → customers db !! ck = Some crow →
  Exists (λ s, py_int s = None) product_ids →
  CreateOrder_mutate now customer_id product_ids order_date db
  = Raise ValueError db.
Proof.
  intros Hck Hcrow Hex. unfold CreateOrder_mutate, CreateOrder_mutate_items.
  rewrite omap_id_Some, mapM_int_item_Some, nonempty_fmap.
  erewrite bind_Return; last first.
  { unfold try_except. erewrite bind_Return by by apply Customer_objects_get_found.
    reflexivity. }
  simpl. destruct product_ids as [|s ids]; [by apply Exists_nil in Hex|].
  cbn [nonempty negb].
  erewrite bind_Raise; [done|].
  unfold Product_objects_filter_pk_in.
  by erewrite bind_Raise by by apply mapM_prep_pk_Raise.
Qed.

(** C6 on the sample store: the reference abc. *)
Lemma create_order_malformed_reference_raises_witness :
  CreateOrder_mutate 7 "1" ["1"; "abc"] None shop = Raise ValueError shop.
Proof.
  apply (create_order_malformed_reference_raises 7 shop "1" 1 alice ["1"; "abc"] None).
  - reflexivity.
  - reflexivity.
  - apply Exists_cons_tl, Exists_cons_hd. reflexivity.
Defined.

(** A customer reference that is not numeric raises in the same way: the
    handler of createOrder catches [DoesNotExist] only. *)
Example create_order_malformed_customer now product_ids order_date db :
  CreateOrder_mutate now "abc" product_ids order_date db = Raise ValueError db.
Proof. reflexivity. Qed.

(** C3, on the code. A createOrder call that passes validation and
    supplies a timestamp stores no order row at all (the failure of C1).
    And the insert that [Order.objects.create] is meant to reach,
    [models.Model.save] with [force_insert] on the instance built from
    the call's arguments, stores the clock's time whatever [order_date]
    the instance carries, since the field is [auto_now_add]: the supplied
    timestamp is not what a row of this path would hold. *)
Theorem create_order_supplied_date_not_stored
    now db customer_id ck crow product_ids ks supplied :
  py_int customer_id = Some ck → customers db !! ck = Some crow →
  product_ids ≠ [] →
  Forall2 (λ s k, py_int s = Some k) product_ids ks →
  Forall (λ k, is_Some (products db !! k)) ks →
  CreateOrder_mutate now customer_id product_ids (Some supplied) db
  = Raise ValueError db
  ∧ Model_save now (mk_kwargs true None)
      (Order.mk None (Customer.id (Customer.of_row ck crow)) 0 (Some supplied)) db
    = Return (Order.mk (Some (next_pk (orders db))) (Some ck) 0 (Some now))
        (set_orders (insert (next_pk (orders db)) (Order.mk_row ck 0 now)) db).
Proof.
  intros Hck Hcrow Hne Hks Hall. split.
  - destruct (CreateOrder_mutate_validated now db customer_id ck crow product_ids
                ks (Some supplied) Hck Hcrow Hne Hks (forallb_bound_stored _ _ Hall))
      as (missing & Hmissing & ->).
    rewrite bool_decide_false; [done|].
    intros Hmiss. apply Hmiss. by eapply missing_empty.
  - unfold Model_save, Order_insert, bind, get_db, modify_db, ret. simpl.
    by rewrite next_pk_fresh, Hcrow.
Qed.

(** C3 on the sample store: timestamp 3 supplied at time 7. *)
Lemma create_order_supplied_date_not_stored_witness :
  CreateOrder_mutate 7 "1" ["1"] (Some 3) shop = Raise ValueError shop
  ∧ Model_save 7 (mk_kwargs true None) (Order.mk None (Some 1) 0 (Some 3)) shop
    = Return (Order.mk (Some 1) (Some 1) 0 (Some 7))
        (set_orders (insert 1 (Order.mk_row 1 0 7)) shop).
Proof.
  apply (create_order_supplied_date_not_stored 7 shop "1" 1 alice ["1"] [1] 3).
  - reflexivity.
  - reflexivity.
  - discriminate.
  - repeat constructor.
  - repeat constructor; eexists; reflexivity.
Defined.

(* ===================================================================== *)
(** * createCustomer                                                       *)
(* ===================================================================== *)

(** The branch of createCustomer on its two checks. *)
Lemma CreateCustomer_mutate_checked others now input db :
  email_taken (customers db) (CustomerInput.email input) = false →
  phone_rejected (CustomerInput.phone input) = false →
  CreateCustomer_mutate others now input db
  = bind (Customer_objects_create now (CustomerInput.name input)
            (CustomerInput.email input) (or_empty (CustomerInput.phone input)))
         (λ customer, ret (CreateCustomerPayload.mk (Some customer)
                             (Some "Customer created") []))
         (others db).
Proof.
  intros Htaken Hphone. unfold CreateCustomer_mutate.
  erewrite bind_Return;
    [|unfold Customer_objects_filter_email_exists, bind, get_db, ret;
      by rewrite Htaken].
  rewrite Hphone. reflexivity.
Qed.

(** C8, on the code. createCustomer does not look at [name]: with a free
    email and an acceptable phone, an input whose name is the empty
    string is inserted, and the stored row has the empty name. *)
Theorem create_customer_stores_empty_name now db email phone :
  email_taken (customers db) email = false →
  phone_rejected phone = false →
  let k := next_pk (customers db) in
  let r := Customer.mk_row "" email (Some (or_empty phone)) now in
  CreateCustomer_mutate id now (CustomerInput.mk "" email phone) db
  = Return (CreateCustomerPayload.mk (Some (Customer.of_row k r))
              (Some "Customer created") [])
           (set_customers (insert k r) db)
  ∧ customers (set_customers (insert k r) db) !! k = Some r
  ∧ Customer.r_name r = "".
Proof.
  intros Htaken Hphone k r. split; [|split; [apply lookup_insert_eq|done]].
  rewrite CreateCustomer_mutate_checked by done.
  unfold Customer_objects_create, bind, get_db, modify_db, ret. simpl.
  by rewrite Htaken.
Qed.

(** C8 on the empty store. *)
Lemma create_customer_stores_empty_name_witness :
  let r := Customer.mk_row "" "a@b.c" (Some "") 7 in
  CreateCustomer_mutate id 7 (CustomerInput.mk "" "a@b.c" None) empty_store
  = Return (CreateCustomerPayload.mk (Some (Customer.of_row 1 r))
              (Some "Customer created") [])
           (set_customers (insert 1 r) empty_store)
  ∧ customers (set_customers (insert 1 r) empty_store) !! 1 = Some r
  ∧ Customer.r_name r = "".
Proof.
  apply (create_customer_stores_empty_name 7 empty_store "a@b.c" None).
  - reflexivity.
  - reflexivity.
Defined.

(** The sibling path: a bulk row with the empty name is refused. *)
Example bulk_refuses_empty_name :
  BulkCreateCustomers_mutate 7 [CustomerInput.mk "" "a@b.c" None] empty_store
  = Return (BulkCreateCustomersPayload.mk [] ["Row 1: Name is required"])
           empty_store.
Proof. vm_compute. reflexivity. Qed.

(** C4, as stated, fails: the email is free when createCustomer checks
    it, a concurrent request commits the same email before the insert,
    the store rejects the insert, and the call ends with the storage
    exception instead of a payload that lists the failure. *)
Lemma create_customer_race_counterexample :
  let input := CustomerInput.mk "Ann" "ann@example.com" None in
  email_taken (customers empty_store) "ann@example.com" = false
  ∧ email_taken (customers (rival "ann@example.com" empty_store))
      "ann@example.com" = true
  ∧ CreateCustomer_mutate (rival "ann@example.com") 7 input empty_store
    = Raise IntegrityError (rival "ann@example.com" empty_store)
  ∧ ¬ ∃ payload db',
        CreateCustomer_mutate (rival "ann@example.com") 7 input empty_store
        = Return payload db'
        ∧ "Email already exists" ∈ CreateCustomerPayload.errors payload.
Proof.
  repeat split; try reflexivity.
  intros (payload & db' & Heq & _). vm_compute in Heq. discriminate.
Qed.

(** C4, amended. createCustomer reports "Email already exists" in
    [errors] when its own query finds the email, and then writes
    nothing; when the query finds the email free, the phone is
    acceptable, and the store's uniqueness constraint nevertheless
    rejects the insert, the storage exception [IntegrityError]
    propagates to the caller and no payload is returned. *)
Theorem create_customer_conflict_propagates others now input db :
  (email_taken (customers db) (CustomerInput.email input) = true →
   ∃ errs, CreateCustomer_mutate others now input db
           = Return (CreateCustomerPayload.mk None None errs) db
           ∧ "Email already exists" ∈ errs)
  ∧ (email_taken (customers db) (CustomerInput.email input) = false →
     phone_rejected (CustomerInput.phone input) = false →
     email_taken (customers (others db)) (CustomerInput.email input) = true →
     CreateCustomer_mutate others now input db
     = Raise IntegrityError (others db)).
Proof.
  split.
  - intros Htaken. unfold CreateCustomer_mutate.
    erewrite bind_Return;
      [|unfold Customer_objects_filter_email_exists, bind, get_db, ret;
        by rewrite Htaken].
    cbn [append_if app].
    destruct (phone_rejected (CustomerInput.phone input)); cbn [append_if app nonempty].
    + eexists. split; [reflexivity|]. apply list_elem_of_here.
    + eexists. split; [reflexivity|]. apply list_elem_of_here.
  - intros Htaken Hphone Hrace.
    rewrite CreateCustomer_mutate_checked by done.
    unfold Customer_objects_create, bind, get_db. by rewrite Hrace.
Qed.

(** C4 on the empty store, alone after the rival and racing with it. *)
Lemma create_customer_conflict_propagates_witness :
  (∃ errs, CreateCustomer_mutate id 7 (CustomerInput.mk "Ann" "ann@example.com" None)
             (rival "ann@example.com" empty_store)
           = Return (CreateCustomerPayload.mk None None errs)
               (rival "ann@example.com" empty_store)
           ∧ "Email already exists" ∈ errs)
  ∧ CreateCustomer_mutate (rival "ann@example.com") 7
      (CustomerInput.mk "Ann" "ann@example.com" None) empty_store
    = Raise IntegrityError (rival "ann@example.com" empty_store).
Proof.
  split.
  - apply (proj1 (create_customer_conflict_propagates id 7
             (CustomerInput.mk "Ann" "ann@example.com" None)
             (rival "ann@example.com" empty_store))).
    reflexivity.
  - apply (proj2 (create_customer_conflict_propagates (rival "ann@example.com") 7
             (CustomerInput.mk "Ann" "ann@example.com" None) empty_store)).
    + reflexivity.
    + reflexivity.
    + reflexivity.
Defined.

(* ===================================================================== *)
(** * Ordered queries                                                      *)
(* ===================================================================== *)

(** An [orderBy] outside the allow-list, or none, leaves the queryset in
    its default order and raises nothing. *)
Lemma resolve_ordered_unlisted qs allowed order_by_arg :
  (∀ s, order_by_arg = Some s → s ∉ allowed) →
  resolve_ordered qs allowed order_by_arg = Ok qs.
Proof.
  intros Hout. destruct order_by_arg as [s|]; [|done]. simpl.
  rewrite bool_decide_false; [done|]. by apply Hout.
Qed.

(** Every allow-listed value of allCustomers orders by that value. *)
Lemma resolve_all_customers_listed s :
  s ∈ ALLOWED_CUSTOMER_ORDER_FIELDS →
  resolve_all_customers (Some s) = Ok (mkQuerySet CustomerModel false [s]).
Proof.
  intros Hs. unfold resolve_all_customers, resolve_ordered.
  rewrite bool_decide_true by done.
  unfold ALLOWED_CUSTOMER_ORDER_FIELDS in Hs.
  repeat (apply elem_of_cons in Hs as [->|Hs]; [reflexivity|]).
  by apply elem_of_nil in Hs.
Qed.

(** The allow-listed values of allProducts and allOrders whose field the
    model has. *)
Example resolve_listed_fields :
  Forall (λ s, resolve_all_products (Some s) = Ok (mkQuerySet ProductModel false [s]))
    ["name"; "-name"; "price"; "-price"; "stock"; "-stock"]
  ∧ Forall (λ s, resolve_all_orders (Some s) = Ok (mkQuerySet OrderModel true [s]))
      ["order_date"; "-order_date"; "total_amount"; "-total_amount"].
Proof. split; repeat constructor. Qed.

(** C9, on the code. The allow-lists of allProducts and allOrders hold
    [created_at] and [-created_at], but neither [Product] nor [Order] has
    a field of that name: these allow-listed values reach [order_by],
    which raises [FieldError] instead of ordering. *)
Theorem resolve_created_at_field_error :
  "created_at" ∈ ALLOWED_PRODUCT_ORDER_FIELDS
  ∧ resolve_all_products (Some "created_at") = Err FieldError
  ∧ resolve_all_products (Some "-created_at") = Err FieldError
  ∧ "created_at" ∈ ALLOWED_ORDER_ORDER_FIELDS
  ∧ resolve_all_orders (Some "created_at") = Err FieldError
  ∧ resolve_all_orders (Some "-created_at") = Err FieldError.
Proof.
  repeat split; try reflexivity.
  - unfold ALLOWED_PRODUCT_ORDER_FIELDS. set_solver.
  - unfold ALLOWED_ORDER_ORDER_FIELDS. set_solver.
Qed.

(* ===================================================================== *)
(** * bulkCreateCustomers                                                  *)
(* ===================================================================== *)

(** ** One row *)

Lemma append_if_nil cond msg errs :
  append_if cond msg errs = [] ↔ cond = false ∧ errs = [].
Proof.
  unfold append_if. destruct cond.
  - split; [|by intros [? _]]. by intros [_ ?]%app_eq_nil.
  - split; [done|by intros [_ ?]].
Qed.

Lemma elem_of_append_if cond msg errs x :
  x ∈ append_if cond msg errs ↔ x ∈ errs ∨ (cond = true ∧ x = msg).
Proof.
  unfold append_if. destruct cond.
  - rewrite elem_of_app, list_elem_of_singleton. split.
    + intros [?|?]; auto.
    + intros [?|[_ ?]]; auto.
  - split; [auto|]. by intros [?|[? _]].
Qed.

(** A row is created exactly when its email is free and the row is well
    formed. *)
Lemma row_errs_nil taken idx item :
  row_errs taken idx item = [] ↔ taken = false ∧ row_well_formed item.
Proof.
  unfold row_errs, row_well_formed. rewrite !append_if_nil.
  rewrite !bool_decide_eq_false. split.
  - intros (He & Hn & Hp & Ht & _). auto.
  - intros (Ht & Hn & He & Hp). auto.
Qed.

Lemma nonempty_false {A} (l : list A) : nonempty l = false ↔ l = [].
Proof. by destruct l. Qed.

(** Every message of a row starts with that row's prefix. *)
Lemma row_errs_msgs taken idx item msg :
  msg ∈ row_errs taken idx item → ∃ what, msg = row_msg idx what.
Proof.
  unfold row_errs. rewrite !elem_of_append_if.
  intros [[[[[]%elem_of_nil|[_ ->]]|[_ ->]]|[_ ->]]|[_ ->]]; eauto.
Qed.

Lemma row_errs_taken idx item :
  row_msg idx "Email already exists" ∈ row_errs true idx item.
Proof. unfold row_errs. rewrite !elem_of_append_if. auto 10. Qed.

(** ** Row prefixes tell rows apart *)

Lemma pretty_N_go_chars p x s :
  (∀ n, p (pretty_N_char n) = true) → all_chars p s = true →
  all_chars p (pretty_N_go x s) = true.
Proof.
  intros Hp. revert s. induction (N.lt_wf_0 x) as [x _ IH]; intros s Hs.
  destruct (decide (x = 0)%N) as [->|Hx]; [by rewrite pretty_N_go_0|].
  rewrite pretty_N_go_step by lia. apply IH; [apply N.div_lt; lia|].
  simpl. by rewrite Hp, Hs.
Qed.

(** The decimal form of an integer has no colon. *)
Lemma py_str_no_colon z : all_chars not_colon (py_str z) = true.
Proof.
  assert (∀ n, not_colon (pretty_N_char n) = true) as Hp.
  { intros n. unfold pretty_N_char. by repeat case_match. }
  assert (∀ n : N, all_chars not_colon (pretty n) = true) as HN.
  { intros n. unfold pretty, pretty_N. case_decide; [done|].
    by apply pretty_N_go_chars. }
  unfold py_str. destruct z as [|q|q]; [done|apply HN|].
  change (all_chars not_colon ("-" +:+ pretty (Npos q)) = true).
  by rewrite all_chars_app, HN.
Qed.

Lemma prefix_app_same s t u : String.prefix (s +:+ t) (s +:+ u) = String.prefix t u.
Proof.
  induction s as [|c s IH]; [done|]. rewrite !app_cons. cbn [String.prefix].
  by destruct (ascii_dec c c).
Qed.

Lemma prefix_app_r s t : String.prefix s (s +:+ t) = true.
Proof.
  induction s as [|c s IH]; [by destruct t|]. rewrite app_cons.
  cbn [String.prefix]. by destruct (ascii_dec c c).
Qed.

(** Two colon-free strings, each followed by a colon: one is a prefix of
    the other only when the strings are equal. *)
Lemma prefix_colon a b x y :
  all_chars not_colon a = true → all_chars not_colon b = true →
  String.prefix (a +:+ String ":" x) (b +:+ String ":" y) = true → a = b.
Proof.
  revert b. induction a as [|c a IH]; intros [|d b] Ha Hb;
    rewrite ?app_cons, ?app_empty_l; cbn [String.prefix all_chars] in *.
  - done.
  - destruct (ascii_dec ":" d) as [<-|]; [|done]. by cbn in Hb.
  - destruct (ascii_dec c ":") as [->|]; [|done]. by cbn in Ha.
  - apply andb_true_iff in Ha as [_ Ha]. apply andb_true_iff in Hb as [_ Hb].
    destruct (ascii_dec c d) as [->|]; [|done]. intros Hp. f_equal. by apply IH.
Qed.

(** A message is about row [i] exactly when it was made for row [i]. *)
Lemma row_prefix_msg i j what :
  String.prefix (row_prefix i) (row_msg j what) = true ↔ i = j.
Proof.
  unfold row_prefix, row_msg. rewrite prefix_app_same. split.
  - intros Hp. apply (inj py_str).
    apply (prefix_colon _ _ " " (" " +:+ what)); [apply py_str_no_colon..|done].
  - intros ->. rewrite prefix_app_same. apply prefix_app_r.
Qed.

Lemma elem_of_concat {A} (x : A) (ls : list (list A)) :
  x ∈ concat ls ↔ ∃ i l, ls !! i = Some l ∧ x ∈ l.
Proof.
  induction ls as [|l0 ls IH]; simpl.
  - split; [by intros ?%elem_of_nil|]. by intros (i & l & ? & _).
  - rewrite elem_of_app, IH. split.
    + intros [Hx|(i & l & Hl & Hx)]; [by exists 0%nat, l0|by exists (S i), l].
    + intros ([|i] & l & Hl & Hx); [left; by simplify_eq/=|right; eauto].
Qed.

(** ** The rows of a run *)

Section rows_of_a_run.
Context (now : Z).

Lemma bulk_rows_length m idx input :
  length (bulk_rows now m idx input) = length input.
Proof.
  revert m idx. induction input as [|item rest IH]; intros m idx; [done|].
  simpl. by rewrite IH.
Qed.

Lemma bulk_rows_msgs m idx input k errs msg :
  bulk_rows now m idx input !! k = Some errs → msg ∈ errs →
  ∃ what, msg = row_msg (idx + Z.of_nat k) what.
Proof.
  revert m idx k. induction input as [|item rest IH]; intros m idx k; [done|].
  destruct k as [|k]; cbn [bulk_rows lookup list_lookup].
  - intros [= <-] Hmsg. rewrite Z.add_0_r. by eapply row_errs_msgs.
  - intros Hk Hmsg. destruct (IH _ _ _ Hk Hmsg) as [what ->].
    exists what. f_equal. lia.
Qed.

(** A message about row [idx + k] is in the flat list exactly when row
    [k] of the run has a message. *)
Lemma row_has_error_rows m idx input k :
  row_has_error (concat (bulk_rows now m idx input)) (idx + Z.of_nat k) = true
  ↔ ∃ errs, bulk_rows now m idx input !! k = Some errs ∧ errs ≠ [].
Proof.
  unfold row_has_error. rewrite existsb_exists. split.
  - intros (msg & Hin & Hp). apply list_elem_of_In, elem_of_concat in Hin
      as (k' & errs & Hk' & Hmsg).
    destruct (bulk_rows_msgs _ _ _ _ _ _ Hk' Hmsg) as [what ->].
    apply row_prefix_msg in Hp. assert (k = k') as -> by lia.
    exists errs. split; [done|]. intros ->. by apply elem_of_nil in Hmsg.
  - intros (errs & Hk & Hne). destruct errs as [|msg errs]; [done|].
    destruct (bulk_rows_msgs _ _ _ _ _ msg Hk) as [what ->]; [apply list_elem_of_here|].
    exists (row_msg (idx + Z.of_nat k) what). split.
    + apply list_elem_of_In, elem_of_concat. exists k, (row_msg (idx + Z.of_nat k) what :: errs).
      split; [done|apply list_elem_of_here].
    + by apply row_prefix_msg.
Qed.

(** The uniqueness check of a row sees the table the run started from
    and the rows the run has created so far. *)
Lemma bulk_rows_lookup m idx input k item :
  input !! k = Some item →
  ∃ taken : bool,
    bulk_rows now m idx input !! k
      = Some (row_errs taken (idx + Z.of_nat k) item)
    ∧ (taken = true ↔ held_before now m idx input k (CustomerInput.email item)).
Proof.
  revert m idx k. induction input as [|item0 rest IH]; intros m idx k; [done|].
  destruct k as [|k]; cbn [lookup list_lookup].
  - intros [= ->]. exists (email_taken m (CustomerInput.email item)).
    cbn [bulk_rows lookup list_lookup]. rewrite Z.add_0_r. split; [done|].
    unfold held_before. split; [auto|].
    intros [?|(k' & ? & ? & _)]; [done|lia].
  - intros Hk. set (e := CustomerInput.email item).
    set (errs0 := row_errs (email_taken m (CustomerInput.email item0)) idx item0).
    set (m' := if nonempty errs0 then m
               else <[next_pk m :=
                        Customer.mk_row (CustomerInput.name item0)
                          (CustomerInput.email item0)
                          (Some (or_empty (CustomerInput.phone item0))) now]> m).
    destruct (IH m' (idx + 1) k Hk) as (taken & Hrow & Htaken).
    exists taken. split.
    { replace (idx + Z.of_nat (S k)) with (idx + 1 + Z.of_nat k) by lia.
      exact Hrow. }
    rewrite Htaken. fold e.
    assert (email_taken m' e = true
            ↔ email_taken m e = true ∨ (errs0 = [] ∧ CustomerInput.email item0 = e))
      as Hm'.
    { unfold m'. destruct (nonempty errs0) eqn:Hne.
      - split; [auto|]. intros [?|[-> _]]; [done|discriminate].
      - apply nonempty_false in Hne. rewrite email_taken_insert. simpl. split.
        + intros [?|?]; [by right|by left].
        + intros [?|[_ ?]]; [by right|by left]. }
    unfold held_before. cbn [bulk_rows]. fold errs0 m'. rewrite Hm'. split.
    + intros [[?|[Herrs He]]|(k' & item' & Hlt & Hin & He & Hrow')].
      * by left.
      * right. exists 0%nat, item0. split; [lia|]. by rewrite Herrs.
      * right. exists (S k'), item'. split; [lia|done].
    + intros [?|(k' & item' & Hlt & Hin & He & Hrow')]; [by left; left|].
      destruct k' as [|k']; cbn [lookup list_lookup] in Hin, Hrow'.
      * left. right. by simplify_eq.
      * right. exists k', item'. split; [lia|done].
Qed.

End rows_of_a_run.

(** ** The loop *)

Lemma Customer_objects_create_free now name email phone db :
  email_taken (customers db) email = false →
  Customer_objects_create now name email phone db
  = Return (Customer.of_row (next_pk (customers db))
              (Customer.mk_row name email (Some phone) now))
      (set_customers (insert (next_pk (customers db))
                        (Customer.mk_row name email (Some phone) now)) db).
Proof.
  intros Hfree. unfold Customer_objects_create, bind, get_db. by rewrite Hfree.
Qed.

(** The loop never raises: it returns one created customer for each row
    of the run without a message, and the messages of the rows in order. *)
Lemma bulk_loop_rows now input idx created errors db :
  ∃ cs db',
    bulk_loop now idx input created errors db
    = Return (created ++ cs,
              errors ++ concat (bulk_rows now (customers db) idx input)) db'
    ∧ length cs
      = length (filter (λ errs, errs = []) (bulk_rows now (customers db) idx input)).
Proof.
  revert idx created errors db.
  induction input as [|item rest IH]; intros idx created errors db.
  - exists [], db. by rewrite !app_nil_r.
  - cbn [bulk_loop bulk_rows concat].
    erewrite bind_Return by reflexivity.
    set (errs := row_errs (email_taken (customers db) (CustomerInput.email item)) idx item).
    destruct (nonempty errs) eqn:Hne.
    + destruct (IH (idx + 1) created (errors ++ errs) db) as (cs & db' & -> & Hlen).
      exists cs, db'. rewrite <-app_assoc. split; [done|].
      rewrite filter_cons_False; [done|]. intros Herrs. by rewrite Herrs in Hne.
    + apply nonempty_false in Hne. pose proof Hne as [Hfree _]%row_errs_nil.
      erewrite bind_Return by by apply Customer_objects_create_free.
      match goal with |- context [bulk_loop _ _ _ (_ ++ [?c]) _ ?db1] =>
        destruct (IH (idx + 1) (created ++ [c]) errors db1) as (cs & db' & -> & Hlen);
        exists (c :: cs), db'
      end.
      rewrite <-app_assoc, Hne. split; [done|].
      rewrite filter_cons_True by done. simpl. by rewrite Hlen.
Qed.

(** ** Counting rows *)

Lemma length_filter_positions {A} (l : list A) (P : nat → Prop)
    `{!∀ i, Decision (P i)} (Q : A → Prop) `{!∀ x, Decision (Q x)} (j : nat) :
  (∀ i x, l !! i = Some x → P (j + i)%nat ↔ Q x) →
  length (filter P (seq j (length l))) = length (filter Q l).
Proof.
  revert j. induction l as [|x l IH]; intros j HPQ; [done|].
  cbn [length seq]. rewrite !filter_cons.
  pose proof (HPQ 0%nat x eq_refl) as Hhead. rewrite Nat.add_0_r in Hhead.
  assert (length (filter P (seq (S j) (length l))) = length (filter Q l)) as Hrest.
  { apply IH. intros i y Hy. rewrite <-(HPQ (S i) y Hy). by rewrite Nat.add_succ_r. }
  destruct (decide (P j)), (decide (Q x)); simpl; rewrite ?Hrest; tauto.
Qed.

Lemma length_filter_complement {A} (l : list A) (Q : A → Prop)
    `{!∀ x, Decision (Q x)} :
  (length (filter Q l) + length (filter (λ x, ¬ Q x) l))%nat = length l.
Proof.
  rewrite <-length_app. apply Permutation_length, filter_app_complement.
Qed.

(** A row of the batch has no message in the flat list exactly when the
    run created it. *)
Lemma bulk_row_created now m input k item :
  input !! k = Some item →
  row_has_error (concat (bulk_rows now m 1 input)) (row_number k) = false
  ↔ bulk_rows now m 1 input !! k = Some [].
Proof.
  intros Hk. unfold row_number.
  destruct (bulk_rows_lookup now m 1 input k item Hk) as (taken & Hrow & _).
  pose proof (row_has_error_rows now m 1 input k) as Herr. split.
  - intros Hno. rewrite Hrow. f_equal.
    destruct (row_errs taken (1 + Z.of_nat k) item) as [|msg errs] eqn:He; [done|].
    assert (row_has_error (concat (bulk_rows now m 1 input)) (1 + Z.of_nat k) = true)
      as Hyes by (apply Herr; eauto).
    congruence.
  - intros Hnil. apply not_true_is_false. intros Hyes.
    apply Herr in Hyes as (errs & Herrs & Hne). congruence.
Qed.

(** C2, as stated, fails: two rows of a batch share an email that no
    stored customer holds, neither is created, and no message says
    "Email already exists"; with only the first row malformed, the second
    is created and again nothing says "Email already exists". *)
Lemma bulk_same_email_counterexample :
  BulkCreateCustomers_mutate 7
    [CustomerInput.mk "" "a@b.c" None; CustomerInput.mk "" "a@b.c" None] empty_store
  = Return (BulkCreateCustomersPayload.mk []
              ["Row 1: Name is required"; "Row 2: Name is required"])
      empty_store
  ∧ BulkCreateCustomers_mutate 7
      [CustomerInput.mk "" "a@b.c" None; CustomerInput.mk "B" "a@b.c" None] empty_store
    = Return (BulkCreateCustomersPayload.mk
                [Customer.mk (Some 1) "B" "a@b.c" (Some "") (Some 7)]
                ["Row 1: Name is required"])
        (set_customers (insert 1 (Customer.mk_row "B" "a@b.c" (Some "") 7)) empty_store).
Proof. split; vm_compute; reflexivity. Qed.

(** C2, amended. For every bulkCreateCustomers batch the call returns,
    and the number of created customers plus the number of input rows
    with at least one error message equals the number of input rows. A
    row is created (has no message) exactly when its name and email are
    non-empty, its phone is not rejected, no customer stored before the
    batch holds its email, and no earlier row of the batch with the same
    email was created. So of two rows sharing an email at most one is
    created, and when the earlier one is created the later one gets
    "Row j: Email already exists": the uniqueness check sees the rows
    written earlier in the same batch. *)
Theorem bulk_create_customers_rows now input db :
  ∃ created errors db',
    BulkCreateCustomers_mutate now input db
      = Return (BulkCreateCustomersPayload.mk created errors) db'
    ∧ (length created + rows_with_error errors (length input))%nat = length input
    ∧ (∀ i item, input !! i = Some item →
         row_has_error errors (row_number i) = false
         ↔ row_well_formed item
           ∧ email_taken (customers db) (CustomerInput.email item) = false
           ∧ ∀ k item', (k < i)%nat → input !! k = Some item' →
               CustomerInput.email item' = CustomerInput.email item →
               row_has_error errors (row_number k) = true)
    ∧ (∀ i j item_i item_j, (i < j)%nat →
         input !! i = Some item_i → input !! j = Some item_j →
         CustomerInput.email item_i = CustomerInput.email item_j →
         row_has_error errors (row_number i) = false →
         row_msg (row_number j) "Email already exists" ∈ errors).
Proof.
  destruct (bulk_loop_rows now input 1 [] [] db) as (cs & db' & Hloop & Hlen).
  set (rows := bulk_rows now (customers db) 1 input) in *.
  exists cs, (concat rows), db'. split; [|split; [|split]].
  - unfold BulkCreateCustomers_mutate.
    erewrite bind_Return by (unfold atomic; by rewrite Hloop). reflexivity.
  - rewrite Hlen. unfold rows_with_error.
    rewrite <-(bulk_rows_length now (customers db) 1 input). fold rows.
    rewrite (length_filter_positions rows _ (λ errs, ¬ errs = [])).
    + apply length_filter_complement.
    + intros i errs Hi. rewrite Nat.add_0_l. unfold row_number.
      pose proof (row_has_error_rows now (customers db) 1 input i) as Herr.
      fold rows in Herr. rewrite Herr. split.
      * intros (errs' & Hi' & Hne). congruence.
      * intros Hne. eauto.
  - intros i item Hi.
    pose proof (bulk_row_created now (customers db) input i item Hi) as Hcr.
    fold rows in Hcr. rewrite Hcr.
    destruct (bulk_rows_lookup now (customers db) 1 input i item Hi)
      as (taken & Hrow & Htaken).
    fold rows in Hrow. rewrite Hrow. split.
    + intros [= [Hfree Hwf]%row_errs_nil]. split; [done|].
      assert (¬ held_before now (customers db) 1 input i (CustomerInput.email item))
        as Hnot by (rewrite <-Htaken; congruence).
      split.
      * destruct (email_taken _ _) eqn:He; [|done]. destruct Hnot. by left.
      * intros k item' Hlt Hk Hsame.
        destruct (row_has_error (concat rows) (row_number k)) eqn:Hk'; [done|].
        apply (bulk_row_created now (customers db) input k item' Hk) in Hk'.
        destruct Hnot. right. by exists k, item'.
    + intros (Hwf & Hfree & Hearlier). f_equal. apply row_errs_nil. split; [|done].
      destruct taken; [|done]. destruct (proj1 Htaken eq_refl)
        as [Hheld|(k & item' & Hlt & Hk & Hsame & Hnil)]; [congruence|].
      apply (bulk_row_created now (customers db) input k item' Hk) in Hnil.
      fold rows in Hnil. rewrite (Hearlier k item' Hlt Hk Hsame) in Hnil.
      discriminate.
  - intros i j item_i item_j Hlt Hi Hj Hsame Hcreated.
    apply (bulk_row_created now (customers db) input i item_i Hi) in Hcreated.
    destruct (bulk_rows_lookup now (customers db) 1 input j item_j Hj)
      as (taken & Hrow & Htaken).
    assert (taken = true) as ->.
    { apply Htaken. right. by exists i, item_i. }
    apply elem_of_concat. eexists j, _. split; [exact Hrow|].
    apply row_errs_taken.
Qed.

(** A batch with every kind of row: the counts add up, and the rows that
    share an email with the created row 2 are told so. *)
Example bulk_mixed_batch :
  BulkCreateCustomers_mutate 7
    [CustomerInput.mk "" "a@b.c" None;
     CustomerInput.mk "B" "a@b.c" (Some "");
     CustomerInput.mk "C" "a@b.c" (Some "12");
     CustomerInput.mk "D" "" None;
     CustomerInput.mk "E" "alice@example.com" None] shop
  = Return (BulkCreateCustomersPayload.mk
              [Customer.mk (Some 2) "B" "a@b.c" (Some "") (Some 7)]
              ["Row 1: Name is required";
               "Row 3: Email already exists"; "Row 3: Invalid phone format";
               "Row 4: Email is required";
               "Row 5: Email already exists"])
      (set_customers (insert 2 (Customer.mk_row "B" "a@b.c" (Some "") 7)) shop)
  ∧ rows_with_error
      ["Row 1: Name is required";
       "Row 3: Email already exists"; "Row 3: Invalid phone format";
       "Row 4: Email is required";
       "Row 5: Email already exists"] 5 = 4%nat.
Proof. split; vm_compute; reflexivity. Qed.

(* ===================================================================== *)
(** * Ordered queries: what each resolver returns                          *)
(* ===================================================================== *)

(** X1. allCustomers never raises. It orders by the value passed when that
    value is on the allow-list, and by nothing otherwise. *)
Theorem resolve_all_customers_total order_by_arg :
  ∃ ordering,
    resolve_all_customers order_by_arg
    = Ok (mkQuerySet CustomerModel false ordering)
    ∧ ((ordering = [] ∧ ∀ s, order_by_arg = Some s → s ∉ ALLOWED_CUSTOMER_ORDER_FIELDS)
       ∨ ∃ s, order_by_arg = Some s ∧ s ∈ ALLOWED_CUSTOMER_ORDER_FIELDS
              ∧ ordering = [s]).
Proof.
  destruct order_by_arg as [s|].
  - destruct (decide (s ∈ ALLOWED_CUSTOMER_ORDER_FIELDS)) as [Hin|Hout].
    + exists [s]. split; [by apply resolve_all_customers_listed|]. right. eauto.
    + exists []. split.
      * apply resolve_ordered_unlisted. by intros ? [= <-].
      * left. split; [done|]. by intros ? [= <-].
  - exists []. split; [done|]. left. split; [done|]. by intros ? [=].
Qed.

(** On an allow-listed value, [order_by] on products fails for the two
    spellings of [created_at] and orders for the six others. *)
Lemma order_by_product_listed s :
  s ∈ ALLOWED_PRODUCT_ORDER_FIELDS →
  ((s = "created_at" ∨ s = "-created_at")
   ∧ order_by (objects_all ProductModel) s = Err FieldError)
  ∨ ((s ≠ "created_at" ∧ s ≠ "-created_at")
     ∧ order_by (objects_all ProductModel) s
       = Ok (mkQuerySet ProductModel false [s])).
Proof.
  intros H. unfold ALLOWED_PRODUCT_ORDER_FIELDS in H.
  repeat (apply elem_of_cons in H as [->|H]); [..|by apply elem_of_nil in H];
    first [ left; split; [auto|reflexivity]
          | right; split; [split; discriminate|reflexivity] ].
Qed.

Lemma order_by_order_listed s :
  s ∈ ALLOWED_ORDER_ORDER_FIELDS →
  ((s = "created_at" ∨ s = "-created_at")
   ∧ order_by (distinct (objects_all OrderModel)) s = Err FieldError)
  ∨ ((s ≠ "created_at" ∧ s ≠ "-created_at")
     ∧ order_by (distinct (objects_all OrderModel)) s
       = Ok (mkQuerySet OrderModel true [s])).
Proof.
  intros H. unfold ALLOWED_ORDER_ORDER_FIELDS in H.
  repeat (apply elem_of_cons in H as [->|H]); [..|by apply elem_of_nil in H];
    first [ left; split; [auto|reflexivity]
          | right; split; [split; discriminate|reflexivity] ].
Qed.

(** X2. allProducts raises exactly for [created_at] and [-created_at], the two
    allow-listed names that [Product] does not have, and then with
    [FieldError]; for every other argument it returns the queryset,
    ordered by the value passed when it is on the allow-list and
    unordered otherwise. *)
Theorem resolve_all_products_cases order_by_arg :
  (resolve_all_products order_by_arg = Err FieldError
   ↔ order_by_arg = Some "created_at" ∨ order_by_arg = Some "-created_at")
  ∧ (∀ e, resolve_all_products order_by_arg = Err e → e = FieldError)
  ∧ (∀ qs, resolve_all_products order_by_arg = Ok qs →
       qs_model qs = ProductModel ∧ qs_distinct qs = false
       ∧ ((qs_ordering qs = []
           ∧ ∀ s, order_by_arg = Some s → s ∉ ALLOWED_PRODUCT_ORDER_FIELDS)
          ∨ ∃ s, order_by_arg = Some s ∧ s ∈ ALLOWED_PRODUCT_ORDER_FIELDS
                 ∧ qs_ordering qs = [s])).
Proof.
  unfold resolve_all_products, resolve_ordered.
  destruct order_by_arg as [s|].
  - destruct (decide (s ∈ ALLOWED_PRODUCT_ORDER_FIELDS)) as [Hin|Hout].
    + rewrite bool_decide_true by done.
      destruct (order_by_product_listed s Hin) as [[Hs ->]|[[Hs1 Hs2] ->]].
      * split; [|split].
        -- split; [intros _|done]. destruct Hs as [->| ->]; auto.
        -- by intros e [= <-].
        -- by intros qs [=].
      * split; [|split].
        -- split; [done|]. intros [[= ->]|[= ->]]; done.
        -- by intros e [=].
        -- intros qs [= <-]. split; [done|split; [done|]]. right. eauto.
    + rewrite bool_decide_false by done. split; [|split].
      * split; [done|]. intros [[= ->]|[= ->]]; destruct Hout;
          unfold ALLOWED_PRODUCT_ORDER_FIELDS; set_solver.
      * by intros e [=].
      * intros qs [= <-]. split; [done|split; [done|]]. left. split; [done|].
        by intros ? [= <-].
  - split; [|split].
    + split; [done|]. by intros [[=]|[=]].
    + by intros e [=].
    + intros qs [= <-]. split; [done|split; [done|]]. left. split; [done|].
      by intros ? [=].
Qed.

(** X3. allOrders behaves in the same way on its own allow-list, over the
    [distinct()] queryset: [FieldError] exactly for [created_at] and
    [-created_at], which [Order] does not have. *)
Theorem resolve_all_orders_cases order_by_arg :
  (resolve_all_orders order_by_arg = Err FieldError
   ↔ order_by_arg = Some "created_at" ∨ order_by_arg = Some "-created_at")
  ∧ (∀ e, resolve_all_orders order_by_arg = Err e → e = FieldError)
  ∧ (∀ qs, resolve_all_orders order_by_arg = Ok qs →
       qs_model qs = OrderModel ∧ qs_distinct qs = true
       ∧ ((qs_ordering qs = []
           ∧ ∀ s, order_by_arg = Some s → s ∉ ALLOWED_ORDER_ORDER_FIELDS)
          ∨ ∃ s, order_by_arg = Some s ∧ s ∈ ALLOWED_ORDER_ORDER_FIELDS
                 ∧ qs_ordering qs = [s])).
Proof.
  unfold resolve_all_orders, resolve_ordered.
  destruct order_by_arg as [s|].
  - destruct (decide (s ∈ ALLOWED_ORDER_ORDER_FIELDS)) as [Hin|Hout].
    + rewrite bool_decide_true by done.
      destruct (order_by_order_listed s Hin) as [[Hs ->]|[[Hs1 Hs2] ->]].
      * split; [|split].
        -- split; [intros _|done]. destruct Hs as [->| ->]; auto.
        -- by intros e [= <-].
        -- by intros qs [=].
      * split; [|split].
        -- split; [done|]. intros [[= ->]|[= ->]]; done.
        -- by intros e [=].
        -- intros qs [= <-]. split; [done|split; [done|]]. right. eauto.
    + rewrite bool_decide_false by done. split; [|split].
      * split; [done|]. intros [[= ->]|[= ->]]; destruct Hout;
          unfold ALLOWED_ORDER_ORDER_FIELDS; set_solver.
      * by intros e [=].
      * intros qs [= <-]. split; [done|split; [done|]]. left. split; [done|].
        by intros ? [= <-].
  - split; [|split].
    + split; [done|]. by intros [[=]|[=]].
    + by intros e [=].
    + intros qs [= <-]. split; [done|split; [done|]]. left. split; [done|].
      by intros ? [=].
Qed.

(* ===================================================================== *)
(** * createOrder: the short-circuits, and what no call does               *)
(* ===================================================================== *)

(** A customer reference that [int] rejects: the lookup raises, and the
    handler is for [DoesNotExist] only. *)
Lemma CreateOrder_mutate_items_malformed_customer
    now db customer_id product_ids order_date :
  py_int customer_id = None →
  CreateOrder_mutate_items now customer_id product_ids order_date db
  = Raise ValueError db.
Proof.
  intros Hck. unfold CreateOrder_mutate_items. erewrite bind_Raise; [done|].
  unfold try_except. erewrite bind_Raise; last first.
  { unfold Customer_objects_get.
    by erewrite bind_Raise by (unfold prep_pk; rewrite Hck; reflexivity). }
  reflexivity.
Qed.

(** The first [return] of the mutation: the customer lookup raised
    [DoesNotExist]. *)
Lemma CreateOrder_mutate_items_unknown_customer
    now db customer_id ck product_ids order_date :
  py_int customer_id = Some ck → customers db !! ck = None →
  CreateOrder_mutate_items now customer_id product_ids order_date db
  = Return (CreateOrderPayload.mk None ["Invalid customer ID"]) db.
Proof.
  intros Hck Hnone. unfold CreateOrder_mutate_items.
  erewrite bind_Return; last first.
  { unfold try_except.
    erewrite bind_Raise by by apply (Customer_objects_get_absent _ ck).
    reflexivity. }
  reflexivity.
Qed.

(** The second [return]: the customer was found and [product_ids] is
    empty. *)
Lemma CreateOrder_mutate_no_products now db customer_id ck crow order_date :
  py_int customer_id = Some ck → customers db !! ck = Some crow →
  CreateOrder_mutate now customer_id [] order_date db
  = Return (CreateOrderPayload.mk None
              ["At least one product must be provided"]) db.
Proof.
  intros Hck Hcrow. unfold CreateOrder_mutate, CreateOrder_mutate_items.
  erewrite bind_Return; last first.
  { unfold try_except.
    erewrite bind_Return by by apply (Customer_objects_get_found _ ck crow).
    reflexivity. }
  reflexivity.
Qed.

(** A list of references either parses as a whole or holds a reference
    that [int] rejects. *)
Lemma parse_all_or_one_malformed (ids : list string) :
  (∃ ks, Forall2 (λ s k, py_int s = Some k) ids ks)
  ∨ Exists (λ s, py_int s = None) ids.
Proof.
  induction ids as [|s ids [[ks Hks]|Hbad]].
  - left. by exists [].
  - destruct (py_int s) as [k|] eqn:Hs.
    + left. exists (k :: ks). by constructor.
    + right. by apply Exists_cons_hd.
  - right. by apply Exists_cons_tl.
Qed.

(** X4. With a customer reference that [int] reads and that has no row,
    createOrder answers "Invalid customer ID" and nothing else, whatever
    the product references are (malformed, missing or none): the
    customer is looked up before the products are. Nothing is written. *)
Theorem create_order_unknown_customer
    now db customer_id ck product_ids order_date :
  py_int customer_id = Some ck → customers db !! ck = None →
  CreateOrder_mutate now customer_id product_ids order_date db
  = Return (CreateOrderPayload.mk None ["Invalid customer ID"]) db
  ∧ ∀ other_ids other_date,
      CreateOrder_mutate now customer_id other_ids other_date db
      = CreateOrder_mutate now customer_id product_ids order_date db.
Proof.
  intros Hck Hnone. unfold CreateOrder_mutate. split.
  - by apply (CreateOrder_mutate_items_unknown_customer _ _ _ ck).
  - intros other_ids other_date.
    by rewrite !(CreateOrder_mutate_items_unknown_customer _ _ _ ck).
Qed.

Lemma create_order_unknown_customer_witness :
  CreateOrder_mutate 7 "42" ["abc"] None shop
  = Return (CreateOrderPayload.mk None ["Invalid customer ID"]) shop
  ∧ ∀ other_ids other_date,
      CreateOrder_mutate 7 "42" other_ids other_date shop
      = CreateOrder_mutate 7 "42" ["abc"] None shop.
Proof.
  apply (create_order_unknown_customer 7 shop "42" 42 ["abc"] None).
  - reflexivity.
  - reflexivity.
Defined.

(** createOrder on a non-empty list without a null, by what becomes of
    the fetch: a refusal of [int], a key that cannot be bound, or the
    branch on the missing keys. *)
Lemma CreateOrder_mutate_cases now db customer_id ck crow product_ids order_date :
  py_int customer_id = Some ck → customers db !! ck = Some crow →
  product_ids ≠ [] →
  CreateOrder_mutate now customer_id product_ids order_date db = Raise ValueError db
  ∨ CreateOrder_mutate now customer_id product_ids order_date db
    = Raise OverflowError db
  ∨ ∃ missing : gset Z,
      missing ≠ ∅
      ∧ CreateOrder_mutate now customer_id product_ids order_date db
        = Return (CreateOrderPayload.mk None [invalid_products_msg missing]) db.
Proof.
  intros Hck Hcrow Hne.
  destruct (parse_all_or_one_malformed product_ids) as [[ks Hks]|Hbad].
  - destruct (forallb (λ k, int64 k || bool_decide (is_Some (products db !! k))) ks)
      eqn:Hbound.
    + destruct (CreateOrder_mutate_validated now db customer_id ck crow product_ids
                  ks order_date Hck Hcrow Hne Hks Hbound) as (missing & _ & ->).
      case_bool_decide; [|by left]. right. right. by exists missing.
    + right. left. by eapply CreateOrder_mutate_overflow.
  - left. unfold CreateOrder_mutate, CreateOrder_mutate_items.
    rewrite omap_id_Some, nonempty_fmap.
    erewrite bind_Return; last first.
    { unfold try_except.
      erewrite bind_Return by by apply Customer_objects_get_found. reflexivity. }
    destruct product_ids as [|s ids]; [done|].
    cbn [nonempty negb]. erewrite bind_Raise; [done|].
    by apply Product_objects_filter_pk_in_malformed.
Qed.

(** X5. With an existing customer, createOrder answers "At least one
    product must be provided" exactly when the reference list is empty;
    the call writes nothing. *)
Theorem create_order_no_products now db customer_id ck crow product_ids order_date :
  py_int customer_id = Some ck → customers db !! ck = Some crow →
  CreateOrder_mutate now customer_id product_ids order_date db
  = Return (CreateOrderPayload.mk None
              ["At least one product must be provided"]) db
  ↔ product_ids = [].
Proof.
  intros Hck Hcrow. split; [|intros ->; by apply (CreateOrder_mutate_no_products _ _ _ ck crow)].
  destruct product_ids as [|s ids]; [done|]. intros Hrun. exfalso.
  destruct (CreateOrder_mutate_cases now db customer_id ck crow (s :: ids)
              order_date Hck Hcrow ltac:(done))
    as [Hcase|[Hcase|(missing & _ & Hcase)]];
    rewrite Hrun in Hcase; [done|done|].
  revert Hcase. unfold invalid_products_msg. rewrite app_cons. by intros [=].
Qed.

Lemma create_order_no_products_witness :
  CreateOrder_mutate 7 "1" [] None shop
  = Return (CreateOrderPayload.mk None
              ["At least one product must be provided"]) shop.
Proof.
  apply (create_order_no_products 7 shop "1" 1 alice [] None).
  - reflexivity.
  - reflexivity.
  - reflexivity.
Defined.

(** A list of items holds no null, or it holds one. *)
Lemma items_present_or_null {A} (items : list (option A)) :
  items = Some <$> omap id items ∨ None ∈ items.
Proof.
  induction items as [|[x|] items [IH|IH]].
  - by left.
  - left. cbn. by rewrite <-IH.
  - right. by right.
  - right. by left.
  - right. by left.
Qed.

(** [map(int, product_ids)] on a list that holds a null raises, at the
    null or at a malformed reference before it. *)
Lemma mapM_int_item_null items db :
  None ∈ items → ∃ e, mapM int_item items db = Raise e db.
Proof.
  induction items as [|[s|] items IH]; intros Hnull.
  - by apply elem_of_nil in Hnull.
  - apply elem_of_cons in Hnull as [?|Hnull]; [done|].
    destruct (IH Hnull) as [e He]. cbn [mapM int_item].
    destruct (py_int s) as [k|] eqn:Hs.
    + exists e. erewrite bind_Return by (unfold prep_pk; rewrite Hs; reflexivity).
      by erewrite bind_Raise by exact He.
    + exists ValueError.
      by erewrite bind_Raise by (unfold prep_pk; rewrite Hs; reflexivity).
  - exists TypeError. cbn [mapM int_item]. by erewrite bind_Raise by reflexivity.
Qed.

(** The fetch leaves the store as it is, whether it returns or raises. *)
Lemma Product_objects_filter_pk_in_reads ids db :
  (∃ ps, Product_objects_filter_pk_in ids db = Return ps db)
  ∨ ∃ e, Product_objects_filter_pk_in ids db = Raise e db.
Proof.
  destruct (parse_all_or_one_malformed ids) as [[ks Hks]|Hbad].
  - destruct (forallb (λ k, int64 k || bool_decide (is_Some (products db !! k))) ks)
      eqn:Hbound.
    + left. eexists. by apply Product_objects_filter_pk_in_Return.
    + right. eexists. by eapply Product_objects_filter_pk_in_overflow.
  - right. eexists. by apply Product_objects_filter_pk_in_malformed.
Qed.

(** X6. No createOrder call writes to the store, and none returns an
    order, whatever the customer reference, the items of the reference
    list (null items among them) and the store are: a call that returns
    carries no order and exactly one error message, and the store is as
    it was after a call that returns and after a call that raises. *)
Theorem create_order_never_writes now customer_id product_ids order_date db :
  match CreateOrder_mutate_items now customer_id product_ids order_date db with
  | Return payload db' =>
      db' = db ∧ CreateOrderPayload.order payload = None
      ∧ length (CreateOrderPayload.errors payload) = 1%nat
  | Raise e db' => db' = db
  end.
Proof.
  destruct (py_int customer_id) as [ck|] eqn:Hck; last first.
  { by rewrite CreateOrder_mutate_items_malformed_customer. }
  destruct (customers db !! ck) as [crow|] eqn:Hcrow; last first.
  { by rewrite (CreateOrder_mutate_items_unknown_customer _ _ _ ck). }
  destruct (items_present_or_null product_ids) as [->|Hnull].
  - change (CreateOrder_mutate_items now customer_id
              (Some <$> omap id product_ids) order_date db)
      with (CreateOrder_mutate now customer_id (omap id product_ids) order_date db).
    destruct (omap id product_ids) as [|s ids] eqn:Hids.
    { by rewrite (CreateOrder_mutate_no_products _ _ _ ck crow). }
    destruct (CreateOrder_mutate_cases now db customer_id ck crow (s :: ids)
                order_date Hck Hcrow ltac:(done))
      as [->|[->|(missing & _ & ->)]]; done.
  - unfold CreateOrder_mutate_items.
    erewrite bind_Return; last first.
    { unfold try_except.
      erewrite bind_Return by by apply Customer_objects_get_found. reflexivity. }
    destruct product_ids as [|item items]; [by apply elem_of_nil in Hnull|].
    cbn [nonempty negb].
    destruct (Product_objects_filter_pk_in_reads (omap id (item :: items)) db)
      as [[ps Hps]|[e He]].
    + erewrite bind_Return by exact Hps.
      destruct (mapM_int_item_null (item :: items) db Hnull) as [e He].
      by erewrite bind_Raise by exact He.
    + by erewrite bind_Raise by exact He.
Qed.

(** A null among the references: the fetch drops it, and [int] then
    raises [TypeError]. A reference beyond 64 bits: the fetch raises. *)
Example create_order_null_item :
  CreateOrder_mutate_items 7 "1" [Some "1"; None] None shop = Raise TypeError shop.
Proof. vm_compute. reflexivity. Qed.

Example create_order_unbound_reference :
  py_int "9223372036854775808" = Some (2 ^ 63)
  ∧ CreateOrder_mutate 7 "1" ["1"; "9223372036854775808"] None shop
    = Raise OverflowError shop.
Proof. split; vm_compute; reflexivity. Qed.

(* ===================================================================== *)
(** * createCustomer: success, refusal, and the second call                *)
(* ===================================================================== *)

(** createCustomer by the outcome of its two checks. *)
Lemma CreateCustomer_mutate_cases others now input db :
  CreateCustomer_mutate others now input db
  = match email_taken (customers db) (CustomerInput.email input),
          phone_rejected (CustomerInput.phone input) with
    | false, false =>
        bind (Customer_objects_create now (CustomerInput.name input)
                (CustomerInput.email input) (or_empty (CustomerInput.phone input)))
             (λ customer, ret (CreateCustomerPayload.mk (Some customer)
                                 (Some "Customer created") []))
             (others db)
    | taken, rejected =>
        Return (CreateCustomerPayload.mk None None
                  ((if taken then ["Email already exists"] else [])
                   ++ (if rejected then ["Invalid phone format"] else []))) db
    end.
Proof.
  destruct (email_taken _ _) eqn:Htaken, (phone_rejected _) eqn:Hphone;
    [| | |by apply CreateCustomer_mutate_checked];
    unfold CreateCustomer_mutate; erewrite bind_Return by reflexivity;
    by rewrite Htaken, Hphone.
Qed.

(** X10. A refused createCustomer call writes nothing, whatever other
    requests do, and lists its failures in the order of the checks:
    the email first, then the phone. *)
Theorem create_customer_refused others now input db :
  email_taken (customers db) (CustomerInput.email input) = true
  ∨ phone_rejected (CustomerInput.phone input) = true →
  CreateCustomer_mutate others now input db
  = Return (CreateCustomerPayload.mk None None
              ((if email_taken (customers db) (CustomerInput.email input)
                then ["Email already exists"] else [])
               ++ (if phone_rejected (CustomerInput.phone input)
                   then ["Invalid phone format"] else [])))
      db.
Proof.
  intros Hfail. unfold CreateCustomer_mutate.
  erewrite bind_Return by reflexivity.
  destruct (email_taken _ _), (phone_rejected _); try reflexivity.
  by destruct Hfail.
Qed.

Lemma create_customer_refused_witness :
  CreateCustomer_mutate id 7
    (CustomerInput.mk "Al" "alice@example.com" (Some "12-34")) shop
  = Return (CreateCustomerPayload.mk None None
              ["Email already exists"; "Invalid phone format"]) shop.
Proof.
  apply (create_customer_refused id 7
           (CustomerInput.mk "Al" "alice@example.com" (Some "12-34")) shop).
  left. reflexivity.
Defined.

(** X11. A createCustomer call with a free email and an acceptable phone,
    running alone, inserts one row under a key the table did not have and
    returns the instance with the message "Customer created"; the rows
    that were there stay as they were; from then on the email is held,
    and the same call made again is refused with "Email already exists"
    alone and writes nothing. *)
Theorem create_customer_created_then_refused now now' input db :
  email_taken (customers db) (CustomerInput.email input) = false →
  phone_rejected (CustomerInput.phone input) = false →
  let k := next_pk (customers db) in
  let r := Customer.mk_row (CustomerInput.name input) (CustomerInput.email input)
             (Some (or_empty (CustomerInput.phone input))) now in
  let db' := set_customers (insert k r) db in
  customers db !! k = None
  ∧ CreateCustomer_mutate id now input db
    = Return (CreateCustomerPayload.mk (Some (Customer.of_row k r))
                (Some "Customer created") []) db'
  ∧ (∀ k' r', customers db !! k' = Some r' → customers db' !! k' = Some r')
  ∧ email_taken (customers db') (CustomerInput.email input) = true
  ∧ CreateCustomer_mutate id now' input db'
    = Return (CreateCustomerPayload.mk None None ["Email already exists"]) db'.
Proof.
  intros Hfree Hphone k r db'.
  assert (email_taken (customers db') (CustomerInput.email input) = true) as Hheld.
  { apply email_taken_insert. by left. }
  split; [apply next_pk_fresh|]. split; [|split; [|split; [done|]]].
  - rewrite CreateCustomer_mutate_checked by done.
    by erewrite bind_Return by by apply Customer_objects_create_free.
  - intros k' r' Hk'. cbn. rewrite lookup_insert_ne; [done|].
    intros <-. unfold k in Hk'. by rewrite next_pk_fresh in Hk'.
  - by rewrite CreateCustomer_mutate_cases, Hheld, Hphone.
Qed.

Lemma create_customer_created_then_refused_witness :
  let r := Customer.mk_row "Bob" "bob@example.com" (Some "123-456-7890") 7 in
  let db' := set_customers (insert 2 r) shop in
  customers shop !! 2 = None
  ∧ CreateCustomer_mutate id 7
      (CustomerInput.mk "Bob" "bob@example.com" (Some "123-456-7890")) shop
    = Return (CreateCustomerPayload.mk (Some (Customer.of_row 2 r))
                (Some "Customer created") []) db'
  ∧ (∀ k' r', customers shop !! k' = Some r' → customers db' !! k' = Some r')
  ∧ email_taken (customers db') "bob@example.com" = true
  ∧ CreateCustomer_mutate id 9
      (CustomerInput.mk "Bob" "bob@example.com" (Some "123-456-7890")) db'
    = Return (CreateCustomerPayload.mk None None ["Email already exists"]) db'.
Proof.
  apply (create_customer_created_then_refused 7 9
           (CustomerInput.mk "Bob" "bob@example.com" (Some "123-456-7890")) shop).
  - reflexivity.
  - reflexivity.
Defined.

(* ===================================================================== *)
(** * bulkCreateCustomers: what a run writes                               *)
(* ===================================================================== *)

(** Whether a row has a message does not depend on its number. *)
Lemma nonempty_row_errs taken i j item :
  nonempty (row_errs taken i item) = nonempty (row_errs taken j item).
Proof.
  unfold row_errs, append_if.
  by destruct taken, (phone_rejected _), (bool_decide _), (bool_decide _).
Qed.

Lemma length_row_errs taken i j item :
  length (row_errs taken i item) = length (row_errs taken j item).
Proof.
  unfold row_errs, append_if.
  by destruct taken, (phone_rejected _), (bool_decide _), (bool_decide _).
Qed.

(** The loop in one equation: the created customers and the final table
    are those of [bulk_run], the messages those of [bulk_rows]. *)
Lemma bulk_loop_run now input idx created errors db :
  bulk_loop now idx input created errors db
  = Return (created ++ (bulk_run now (customers db) input).1,
            errors ++ concat (bulk_rows now (customers db) idx input))
      (set_customers (λ _, (bulk_run now (customers db) input).2) db).
Proof.
  revert idx created errors db.
  induction input as [|item rest IH]; intros idx created errors db.
  - cbn. rewrite !app_nil_r. by destruct db.
  - cbn [bulk_loop bulk_rows bulk_run concat].
    erewrite bind_Return by reflexivity.
    rewrite (nonempty_row_errs _ 0 idx).
    set (errs := row_errs (email_taken (customers db) (CustomerInput.email item)) idx item).
    destruct (nonempty errs) eqn:Hne.
    + rewrite IH. by rewrite <-app_assoc.
    + apply nonempty_false in Hne. pose proof Hne as [Hfree _]%row_errs_nil.
      erewrite bind_Return by by apply Customer_objects_create_free.
      rewrite IH. cbn [customers set_customers fst snd].
      rewrite <-app_assoc, Hne. reflexivity.
Qed.

Lemma BulkCreateCustomers_mutate_run now input db :
  BulkCreateCustomers_mutate now input db
  = Return (BulkCreateCustomersPayload.mk
              (bulk_run now (customers db) input).1
              (concat (bulk_rows now (customers db) 1 input)))
      (set_customers (λ _, (bulk_run now (customers db) input).2) db).
Proof.
  unfold BulkCreateCustomers_mutate.
  erewrite bind_Return by (unfold atomic; by rewrite bulk_loop_run).
  reflexivity.
Qed.

(** ** The table a run leaves *)

Lemma bulk_run_preserves now input m k r :
  m !! k = Some r → (bulk_run now m input).2 !! k = Some r.
Proof.
  revert m. induction input as [|item rest IH]; intros m Hk; [done|].
  cbn [bulk_run]. destruct (nonempty _); [by apply IH|].
  cbn [snd]. apply IH. rewrite lookup_insert_ne; [done|].
  intros <-. by rewrite next_pk_fresh in Hk.
Qed.

Lemma bulk_run_size now input m :
  size (bulk_run now m input).2 = (size m + length (bulk_run now m input).1)%nat.
Proof.
  revert m. induction input as [|item rest IH]; intros m; [cbn; lia|].
  cbn [bulk_run]. destruct (nonempty _); [by apply IH|].
  cbn [fst snd length]. rewrite IH.
  rewrite map_size_insert_None by apply next_pk_fresh. lia.
Qed.

Lemma email_taken_false_insert m r e :
  email_taken (<[next_pk m := r]> m) e = false →
  Customer.r_email r ≠ e ∧ email_taken m e = false.
Proof.
  intros Hno. split.
  - intros He. assert (email_taken (<[next_pk m := r]> m) e = true) as Hyes
      by (apply email_taken_insert; by left). congruence.
  - apply not_true_is_false. intros Hyes.
    assert (email_taken (<[next_pk m := r]> m) e = true) as Hyes'
      by (apply email_taken_insert; by right). congruence.
Qed.

(** Every created customer is the row of a well-formed input row whose
    email no row of the starting table held, stored under a key the
    starting table did not have. *)
Lemma bulk_run_created now input m c :
  c ∈ (bulk_run now m input).1 →
  ∃ k item,
    item ∈ input ∧ row_well_formed item
    ∧ email_taken m (CustomerInput.email item) = false
    ∧ m !! k = None
    ∧ (bulk_run now m input).2 !! k = Some (row_of now item)
    ∧ c = Customer.of_row k (row_of now item).
Proof.
  revert m. induction input as [|item rest IH]; intros m; [by intros ?%elem_of_nil|].
  cbn [bulk_run].
  destruct (nonempty _) eqn:Hne.
  - intros (k & item' & Hin & ?)%IH. exists k, item'. split; [by right|done].
  - apply nonempty_false, row_errs_nil in Hne as [Hfree Hwf].
    cbn [fst snd]. intros [->|Hc]%elem_of_cons.
    + exists (next_pk m), item. split; [by left|].
      split; [done|]. split; [done|]. split; [apply next_pk_fresh|]. split; [|done].
      apply bulk_run_preserves, lookup_insert_eq.
    + apply IH in Hc as (k & item' & Hin & Hwf' & Hfree' & Hk & Hk' & ->).
      exists k, item'. split; [by right|]. split; [done|].
      apply email_taken_false_insert in Hfree' as [_ Hfree'].
      split; [done|]. split; [|done].
      destruct (decide (k = next_pk m)) as [->|Hne'].
      * by rewrite lookup_insert_eq in Hk.
      * by rewrite lookup_insert_ne in Hk.
Qed.

(** No two created customers share an email. *)
Lemma bulk_run_created_emails now input m :
  NoDup (Customer.email <$> (bulk_run now m input).1).
Proof.
  revert m. induction input as [|item rest IH]; intros m; [constructor|].
  cbn [bulk_run]. destruct (nonempty _); [by apply IH|].
  cbn [fst fmap list_fmap]. constructor; [|by apply IH].
  intros (c & Hc & Hin)%list_elem_of_fmap.
  apply bulk_run_created in Hin as (k & item' & _ & _ & Hfree & _ & _ & ->).
  apply email_taken_false_insert in Hfree as [Hne _]. by destruct Hne.
Qed.

(** ** Uniqueness of emails *)

Lemma elem_of_emails m e : e ∈ emails m ↔ email_taken m e = true.
Proof.
  unfold emails. rewrite email_taken_true, list_elem_of_fmap. split.
  - intros (r & -> & Hr). apply list_elem_of_fmap in Hr as ([k r'] & -> & Hkr).
    apply elem_of_map_to_list in Hkr. by exists k, r'.
  - intros (k & r & Hk & <-). exists r. split; [done|].
    apply list_elem_of_fmap. exists (k, r). split; [done|].
    by apply elem_of_map_to_list.
Qed.

(** What [emails_unique] says of two rows. *)
Lemma emails_unique_rows m k1 k2 r1 r2 :
  emails_unique m → m !! k1 = Some r1 → m !! k2 = Some r2 →
  Customer.r_email r1 = Customer.r_email r2 → k1 = k2.
Proof.
  unfold emails_unique, emails. intros Hnd H1 H2 He.
  apply elem_of_map_to_list, list_elem_of_lookup in H1 as [i1 Hi1].
  apply elem_of_map_to_list, list_elem_of_lookup in H2 as [i2 Hi2].
  assert (i1 = i2) as ->.
  { eapply NoDup_lookup; [exact Hnd|..].
    - by rewrite !list_lookup_fmap, Hi1.
    - rewrite !list_lookup_fmap, Hi2. simpl. by rewrite He. }
  congruence.
Qed.

Lemma emails_unique_insert m r :
  emails_unique m → email_taken m (Customer.r_email r) = false →
  emails_unique (<[next_pk m := r]> m).
Proof.
  unfold emails_unique. intros Hnd Hfree.
  assert (emails (<[next_pk m := r]> m) ≡ₚ Customer.r_email r :: emails m) as ->.
  { unfold emails. by rewrite map_to_list_insert by apply next_pk_fresh. }
  constructor; [|done]. rewrite elem_of_emails. congruence.
Qed.

Lemma bulk_run_emails_unique now input m :
  emails_unique m → emails_unique (bulk_run now m input).2.
Proof.
  revert m. induction input as [|item rest IH]; intros m Hm; [done|].
  cbn [bulk_run]. destruct (nonempty _) eqn:Hne; [by apply IH|].
  apply nonempty_false, row_errs_nil in Hne as [Hfree _].
  cbn [snd]. by apply IH, emails_unique_insert.
Qed.

(** X12. If no two customers of the store share an email, none do after a
    createCustomer call that runs alone, nor after a bulkCreateCustomers
    call: the pre-checks of both mutations keep the uniqueness that the
    store enforces. *)
Theorem customer_mutations_keep_emails_unique now db :
  emails_unique (customers db) →
  (∀ input payload db',
     CreateCustomer_mutate id now input db = Return payload db' →
     emails_unique (customers db'))
  ∧ (∀ input payload db',
       BulkCreateCustomers_mutate now input db = Return payload db' →
       emails_unique (customers db')).
Proof.
  intros Hdb. split.
  - intros input payload db'.
    destruct (email_taken (customers db) (CustomerInput.email input)) eqn:Hfree;
      [|destruct (phone_rejected (CustomerInput.phone input)) eqn:Hphone].
    + rewrite CreateCustomer_mutate_cases, Hfree.
      destruct (phone_rejected _); by intros [= _ <-].
    + rewrite CreateCustomer_mutate_cases, Hfree, Hphone. by intros [= _ <-].
    + rewrite CreateCustomer_mutate_checked by done.
      erewrite bind_Return by by apply Customer_objects_create_free.
      intros [= _ <-]. by apply emails_unique_insert.
  - intros input payload db'. rewrite BulkCreateCustomers_mutate_run.
    intros [= _ <-]. by apply bulk_run_emails_unique.
Qed.

Lemma customer_mutations_keep_emails_unique_witness :
  (∀ input payload db',
     CreateCustomer_mutate id 7 input shop = Return payload db' →
     emails_unique (customers db'))
  ∧ (∀ input payload db',
       BulkCreateCustomers_mutate 7 input shop = Return payload db' →
       emails_unique (customers db')).
Proof.
  apply (customer_mutations_keep_emails_unique 7 shop).
  apply (bool_decide_unpack _). vm_compute. exact I.
Defined.

(** ** What a batch writes *)

(** X13. A bulkCreateCustomers call that runs alone and returns has
    touched the customer table only, and only by adding rows: the rows
    that were there stay as they were, every returned customer is a new
    row under a key the table did not have, the table has grown by
    exactly the number of returned customers, and no two returned
    customers share an email. *)
Theorem bulk_stores_what_it_returns now input db created errors db' :
  BulkCreateCustomers_mutate now input db
  = Return (BulkCreateCustomersPayload.mk created errors) db' →
  products db' = products db ∧ orders db' = orders db
  ∧ order_products db' = order_products db
  ∧ (∀ k r, customers db !! k = Some r → customers db' !! k = Some r)
  ∧ size (customers db') = (size (customers db) + length created)%nat
  ∧ (∀ c, c ∈ created →
       ∃ k r, customers db !! k = None ∧ customers db' !! k = Some r
              ∧ c = Customer.of_row k r)
  ∧ NoDup (Customer.email <$> created).
Proof.
  rewrite BulkCreateCustomers_mutate_run. intros [= <- _ <-].
  cbn [products orders order_products customers set_customers].
  repeat split.
  - intros k r. apply bulk_run_preserves.
  - apply bulk_run_size.
  - intros c (k & item & _ & _ & _ & Hk & Hk' & ->)%bulk_run_created. eauto.
  - apply bulk_run_created_emails.
Qed.

Lemma bulk_stores_what_it_returns_witness :
  BulkCreateCustomers_mutate 7
    [CustomerInput.mk "Bob" "bob@example.com" None;
     CustomerInput.mk "Al" "alice@example.com" None] shop
  = Return (BulkCreateCustomersPayload.mk
              [Customer.of_row 2 (Customer.mk_row "Bob" "bob@example.com" (Some "") 7)]
              ["Row 2: Email already exists"])
      (set_customers
         (insert 2 (Customer.mk_row "Bob" "bob@example.com" (Some "") 7)) shop)
  ∧ size (customers (set_customers
            (insert 2 (Customer.mk_row "Bob" "bob@example.com" (Some "") 7)) shop))
    = (size (customers shop) + 1)%nat.
Proof.
  split; [vm_compute; reflexivity|].
  apply (bulk_stores_what_it_returns 7
           [CustomerInput.mk "Bob" "bob@example.com" None;
            CustomerInput.mk "Al" "alice@example.com" None] shop
           [Customer.of_row 2 (Customer.mk_row "Bob" "bob@example.com" (Some "") 7)]
           ["Row 2: Email already exists"]).
  vm_compute. reflexivity.
Defined.

Lemma or_empty_accepted phone :
  phone_rejected phone = false →
  or_empty phone = "" ∨ PHONE_REGEX_match (or_empty phone) = true.
Proof.
  destruct phone as [[|c s]|]; [by left| |by left].
  cbn. intros Hm. right. by apply negb_false_iff.
Qed.

(** X14. Every customer that bulkCreateCustomers returns comes from a row of
    the input, with that row's name and email, both non-empty, the email
    held by no customer stored before the batch, a phone that is empty
    or matches PHONE_REGEX (never null), and the call's time as creation
    time. *)
Theorem bulk_created_rows_valid now input db :
  ∃ created errors db',
    BulkCreateCustomers_mutate now input db
      = Return (BulkCreateCustomersPayload.mk created errors) db'
    ∧ ∀ c, c ∈ created →
        ∃ item p,
          item ∈ input
          ∧ Customer.name c = CustomerInput.name item
          ∧ Customer.email c = CustomerInput.email item
          ∧ Customer.name c ≠ "" ∧ Customer.email c ≠ ""
          ∧ email_taken (customers db) (Customer.email c) = false
          ∧ Customer.phone c = Some p
          ∧ (p = "" ∨ PHONE_REGEX_match p = true)
          ∧ Customer.created_at c = Some now.
Proof.
  eexists _, _, _. split; [apply BulkCreateCustomers_mutate_run|].
  intros c (k & item & Hin & (Hname & Hemail & Hphone) & Hfree & _ & _ & ->)%bulk_run_created.
  exists item, (or_empty (CustomerInput.phone item)). cbn.
  repeat split; try done. by apply or_empty_accepted.
Qed.

(** The messages of a row with a name and an email are createCustomer's
    two, numbered. *)
Lemma row_errs_named taken idx item :
  CustomerInput.name item ≠ "" → CustomerInput.email item ≠ "" →
  row_errs taken idx item
  = row_msg idx <$> ((if taken then ["Email already exists"] else [])
                     ++ (if phone_rejected (CustomerInput.phone item)
                         then ["Invalid phone format"] else [])).
Proof.
  intros Hname Hemail. unfold row_errs.
  rewrite (bool_decide_false (CustomerInput.name item = "")) by done.
  rewrite (bool_decide_false (CustomerInput.email item = "")) by done.
  by destruct taken, (phone_rejected _).
Qed.

(** X15. A batch of one row with a non-empty name and email does what
    createCustomer does with that input: the same store results, the
    created customer is the one createCustomer returns, and the messages
    are createCustomer's, each behind "Row 1: ". *)
Theorem bulk_single_row_is_create_customer now item db :
  CustomerInput.name item ≠ "" → CustomerInput.email item ≠ "" →
  ∃ payload db',
    CreateCustomer_mutate id now item db = Return payload db'
    ∧ BulkCreateCustomers_mutate now [item] db
      = Return (BulkCreateCustomersPayload.mk
                  (option_list (CreateCustomerPayload.customer payload))
                  (row_msg 1 <$> CreateCustomerPayload.errors payload))
          db'.
Proof.
  intros Hname Hemail. rewrite BulkCreateCustomers_mutate_run.
  cbn [bulk_run bulk_rows concat]. rewrite app_nil_r.
  rewrite !row_errs_named by done.
  destruct (email_taken (customers db) (CustomerInput.email item)) eqn:Hfree;
    [|destruct (phone_rejected (CustomerInput.phone item)) eqn:Hphone].
  - rewrite CreateCustomer_mutate_cases, Hfree.
    destruct (phone_rejected _); eexists _, _; (split; [done|]); cbn; by destruct db.
  - rewrite CreateCustomer_mutate_cases, Hfree, Hphone.
    eexists _, _. split; [done|]. cbn. by destruct db.
  - eexists _, _. split.
    + rewrite CreateCustomer_mutate_checked by done.
      by erewrite bind_Return by by apply Customer_objects_create_free.
    + reflexivity.
Qed.

Lemma bulk_single_row_is_create_customer_witness :
  ∃ payload db',
    CreateCustomer_mutate id 7 (CustomerInput.mk "Bob" "bob@example.com" None) shop
    = Return payload db'
    ∧ BulkCreateCustomers_mutate 7 [CustomerInput.mk "Bob" "bob@example.com" None] shop
      = Return (BulkCreateCustomersPayload.mk
                  (option_list (CreateCustomerPayload.customer payload))
                  (row_msg 1 <$> CreateCustomerPayload.errors payload))
          db'.
Proof.
  apply (bulk_single_row_is_create_customer 7
           (CustomerInput.mk "Bob" "bob@example.com" None) shop).
  - discriminate.
  - discriminate.
Defined.

(** ** A batch in two halves *)

Lemma bulk_run_app now l1 l2 m :
  bulk_run now m (l1 ++ l2)
  = ((bulk_run now m l1).1 ++ (bulk_run now (bulk_run now m l1).2 l2).1,
     (bulk_run now (bulk_run now m l1).2 l2).2).
Proof.
  revert m. induction l1 as [|item rest IH]; intros m.
  - cbn. by destruct (bulk_run now m l2).
  - cbn [app bulk_run]. destruct (nonempty _); [by apply IH|].
    by rewrite IH.
Qed.

Lemma bulk_rows_app now l1 l2 m idx :
  bulk_rows now m idx (l1 ++ l2)
  = bulk_rows now m idx l1
    ++ bulk_rows now (bulk_run now m l1).2 (idx + Z.of_nat (length l1)) l2.
Proof.
  revert m idx. induction l1 as [|item rest IH]; intros m idx.
  - cbn. by rewrite Z.add_0_r.
  - cbn [app bulk_rows bulk_run length]. rewrite IH.
    rewrite (nonempty_row_errs _ 0 idx).
    replace (idx + 1 + Z.of_nat (length rest)) with (idx + Z.of_nat (S (length rest)))
      by lia.
    by destruct (nonempty _).
Qed.

Lemma row_errs_renumbered n taken idx item :
  Forall2 (renumbered n) (row_errs taken idx item) (row_errs taken (idx + n) item).
Proof.
  assert (∀ what, renumbered n (row_msg idx what) (row_msg (idx + n) what)) as Hr
    by (intros what; by exists idx, what).
  unfold row_errs, append_if.
  destruct taken, (phone_rejected _), (bool_decide _), (bool_decide _);
    repeat constructor; apply Hr.
Qed.

Lemma bulk_rows_renumbered n now m idx input :
  Forall2 (renumbered n) (concat (bulk_rows now m idx input))
    (concat (bulk_rows now m (idx + n) input)).
Proof.
  revert m idx. induction input as [|item rest IH]; intros m idx; [constructor|].
  cbn [bulk_rows concat]. apply Forall2_app; [apply row_errs_renumbered|].
  rewrite (nonempty_row_errs _ (idx + n) idx).
  replace (idx + n + 1) with (idx + 1 + n) by lia. apply IH.
Qed.

(** X16. Importing a batch in one call, or its first part and then the rest
    in two calls, creates the same customers in the same order and leaves
    the same store; the messages are the same too, except that those of
    the second call count its rows from 1 again. *)
Theorem bulk_split now l1 l2 db :
  ∃ c1 e1 db1 c2 e2 db2 e2',
    BulkCreateCustomers_mutate now l1 db
      = Return (BulkCreateCustomersPayload.mk c1 e1) db1
    ∧ BulkCreateCustomers_mutate now l2 db1
      = Return (BulkCreateCustomersPayload.mk c2 e2) db2
    ∧ BulkCreateCustomers_mutate now (l1 ++ l2) db
      = Return (BulkCreateCustomersPayload.mk (c1 ++ c2) (e1 ++ e2')) db2
    ∧ Forall2 (renumbered (Z.of_nat (length l1))) e2 e2'.
Proof.
  eexists _, _, _, _, _, _, _.
  split; [apply BulkCreateCustomers_mutate_run|].
  split; [apply BulkCreateCustomers_mutate_run|].
  split.
  - rewrite BulkCreateCustomers_mutate_run, bulk_run_app, bulk_rows_app, concat_app.
    reflexivity.
  - apply bulk_rows_renumbered.
Qed.

(* ===================================================================== *)
(** * createProduct                                                        *)
(* ===================================================================== *)

Example round_half_even_examples :
  round_half_even 25 10 = 2 ∧ round_half_even 35 10 = 4
  ∧ round_half_even 26 10 = 3 ∧ round_half_even 24 10 = 2
  ∧ round_half_even 1 10 = 0.
Proof. repeat split; reflexivity. Qed.

Example to_hundredths_examples :
  to_hundredths (Finite 1 (-2)) = Some 1
  ∧ to_hundredths (Finite 99999 (-2)) = Some 99999
  ∧ to_hundredths (Finite 5 0) = Some 500
  ∧ to_hundredths (Finite 1 (-3)) = Some 0
  ∧ to_hundredths (Finite 15 (-3)) = Some 2
  ∧ to_hundredths (Finite 9999999999 (-2)) = Some 9999999999
  ∧ to_hundredths (Finite 25 (-3)) = Some 2
  ∧ to_hundredths (Infinity false) = None.
Proof. repeat split; reflexivity. Qed.

(** The specification's three prices: 0 and -5 are refused with a price
    message and write nothing, 0.01 is stored. *)
Example create_product_spec_prices :
  CreateProduct_mutate (ProductInput.mk "P" (Finite 0 0) None) shop
  = Return_x (CreateProductPayload.mk None ["Price must be positive"]) shop
  ∧ CreateProduct_mutate (ProductInput.mk "P" (Finite (-5) 0) None) shop
    = Return_x (CreateProductPayload.mk None ["Price must be positive"]) shop
  ∧ CreateProduct_mutate (ProductInput.mk "P" (Finite 1 (-2)) None) shop
    = Return_x (CreateProductPayload.mk
                  (Some (CreatedProduct.mk (Some 3) "P" (Finite 1 (-2)) 0)) [])
        (set_products (insert 3 (Product.mk_row "P" 1 0)) shop).
Proof. repeat split; vm_compute; reflexivity. Qed.

(** X17. A createProduct call with a price that is zero, negative or a NaN,
    or with a negative stock, is refused: it writes nothing and lists
    its failures in the order of the checks, the price first ("Price
    must be positive", or "Invalid price" for a NaN), then "Stock cannot
    be negative". *)
Theorem create_product_refused input db :
  Decimal_le_0 (ProductInput.price input) ≠ Some false
  ∨ default 0 (ProductInput.stock input) < 0 →
  CreateProduct_mutate input db
  = Return_x (CreateProductPayload.mk None
                (match Decimal_le_0 (ProductInput.price input) with
                 | Some true => ["Price must be positive"]
                 | Some false => []
                 | None => ["Invalid price"]
                 end
                 ++ (if default 0 (ProductInput.stock input) <? 0
                     then ["Stock cannot be negative"] else [])))
      db.
Proof.
  intros Hfail. unfold CreateProduct_mutate, price_errors.
  destruct (Decimal_le_0 (ProductInput.price input)) as [[|]|];
    destruct (Z.ltb_spec (default 0 (ProductInput.stock input)) 0);
    try reflexivity.
  destruct Hfail; [done|lia].
Qed.

Lemma create_product_refused_witness :
  CreateProduct_mutate (ProductInput.mk "P" NaN (Some (-1))) shop
  = Return_x (CreateProductPayload.mk None
                ["Invalid price"; "Stock cannot be negative"]) shop.
Proof.
  apply (create_product_refused (ProductInput.mk "P" NaN (Some (-1))) shop).
  left. discriminate.
Defined.

(** X18. A positive price with at most two decimal places and below 10^8,
    with a stock that is absent, null or not negative, is stored exactly
    as given: createProduct inserts one row under a new key, with the
    price in hundredths and the stock (0 when absent), returns the
    instance with no error, and leaves the other products as they were. *)
Theorem create_product_exact name c e stock db :
  0 < c → -2 ≤ e → c * 10 ^ (e + 2) < 10 ^ 10 →
  0 ≤ default 0 stock →
  let k := next_pk (products db) in
  let r := Product.mk_row name (c * 10 ^ (e + 2)) (default 0 stock) in
  products db !! k = None
  ∧ CreateProduct_mutate (ProductInput.mk name (Finite c e) stock) db
    = Return_x (CreateProductPayload.mk
                  (Some (CreatedProduct.mk (Some k) name (Finite c e) (default 0 stock)))
                  [])
        (set_products (insert k r) db)
  ∧ ∀ k' r', products db !! k' = Some r' →
             products (set_products (insert k r) db) !! k' = Some r'.
Proof.
  intros Hc He Hfit Hstock k r. split; [apply next_pk_fresh|]. split.
  - unfold CreateProduct_mutate, price_errors, Product_objects_create.
    cbn [ProductInput.price ProductInput.stock ProductInput.name Decimal_le_0
         to_hundredths].
    rewrite (proj2 (Z.leb_gt c 0)) by done.
    rewrite (proj2 (Z.ltb_ge (default 0 stock) 0)) by done.
    cbn [append_if nonempty].
    rewrite (proj2 (Z.leb_le 0 (e + 2))) by lia.
    reflexivity.
  - intros k' r' Hk'. cbn. rewrite lookup_insert_ne; [done|].
    intros <-. unfold k in Hk'. by rewrite next_pk_fresh in Hk'.
Qed.

Lemma create_product_exact_witness :
  let r := Product.mk_row "Laptop" 99999 10 in
  products shop !! 3 = None
  ∧ CreateProduct_mutate (ProductInput.mk "Laptop" (Finite 99999 (-2)) (Some 10)) shop
    = Return_x (CreateProductPayload.mk
                  (Some (CreatedProduct.mk (Some 3) "Laptop" (Finite 99999 (-2)) 10))
                  [])
        (set_products (insert 3 r) shop)
  ∧ ∀ k' r', products shop !! k' = Some r' →
             products (set_products (insert 3 r) shop) !! k' = Some r'.
Proof.
  apply (create_product_exact "Laptop" 99999 (-2) (Some 10) shop).
  - lia.
  - lia.
  - reflexivity.
  - simpl. lia.
Defined.

(** X19. A positive price below half a hundredth passes the price check and
    is stored as 0.00: createProduct returns the instance with the price
    that was passed, and the row it wrote has the price zero. *)
Theorem create_product_rounds_to_zero name c e stock db :
  0 < c → e < -2 → 2 * c < 10 ^ (- (e + 2)) →
  0 ≤ default 0 stock →
  let k := next_pk (products db) in
  CreateProduct_mutate (ProductInput.mk name (Finite c e) stock) db
  = Return_x (CreateProductPayload.mk
                (Some (CreatedProduct.mk (Some k) name (Finite c e) (default 0 stock)))
                [])
      (set_products (insert k (Product.mk_row name 0 (default 0 stock))) db).
Proof.
  intros Hc He Hsmall Hstock k.
  unfold CreateProduct_mutate, price_errors, Product_objects_create.
  cbn [ProductInput.price ProductInput.stock ProductInput.name Decimal_le_0
       to_hundredths].
  rewrite (proj2 (Z.leb_gt c 0)) by done.
  rewrite (proj2 (Z.ltb_ge (default 0 stock) 0)) by done.
  cbn [append_if nonempty].
  rewrite (proj2 (Z.leb_gt 0 (e + 2))) by lia.
  assert (round_half_even (Z.abs c) (10 ^ (- (e + 2))) = 0) as ->.
  { unfold round_half_even. rewrite Z.abs_eq by lia.
    rewrite Z.div_small, Z.mod_small by lia.
    by rewrite (proj2 (Z.ltb_lt _ _)) by done. }
  rewrite Z.mul_0_r. reflexivity.
Qed.

Lemma create_product_rounds_to_zero_witness :
  CreateProduct_mutate (ProductInput.mk "P" (Finite 1 (-3)) None) shop
  = Return_x (CreateProductPayload.mk
                (Some (CreatedProduct.mk (Some 3) "P" (Finite 1 (-3)) 0)) [])
      (set_products (insert 3 (Product.mk_row "P" 0 0)) shop).
Proof.
  apply (create_product_rounds_to_zero "P" 1 (-3) None shop).
  - lia.
  - lia.
  - reflexivity.
  - simpl. lia.
Defined.

(* ===================================================================== *)
(** * seed_db.py: get_or_create on a table                                 *)
(* ===================================================================== *)

Section get_or_create_tables.
Context {R : Type} (key : R → string).

Lemma matching_nil v (m : gmap Z R) :
  matching key v m = [] ↔ ∀ k r, m !! k = Some r → key r ≠ v.
Proof.
  unfold matching. rewrite map_to_list_empty_iff, map_empty. split.
  - intros Hnone k r Hk Hv. specialize (Hnone k).
    apply map_lookup_filter_None in Hnone as [Hnone|Hnone]; [congruence|].
    by apply (Hnone r).
  - intros Hnone k. apply map_lookup_filter_None.
    destruct (m !! k) as [r|] eqn:Hk; [right|by left].
    intros x [= <-]. simpl. by apply (Hnone k).
Qed.

Lemma matching_insert_other (m : gmap Z R) r v :
  key r ≠ v → matching key v (<[next_pk m := r]> m) = matching key v m.
Proof.
  intros Hr. unfold matching. rewrite map_filter_insert_not'; [done|done|].
  intros y Hy. by rewrite next_pk_fresh in Hy.
Qed.

Lemma matching_insert_first (m : gmap Z R) r :
  matching key (key r) m = [] →
  matching key (key r) (<[next_pk m := r]> m) = [(next_pk m, r)].
Proof.
  unfold matching. intros Hnone%map_to_list_empty_iff.
  rewrite map_filter_insert_True by done. rewrite Hnone, insert_empty.
  apply map_to_list_singleton.
Qed.

(** Looking for a row a second time finds the row of the first time. *)
Lemma goc_idem (m : gmap Z R) r m' :
  goc key m r = Some m' → goc key m' r = Some m'.
Proof.
  unfold goc. destruct (matching key (key r) m) as [|kr [|]] eqn:Hm; intros [= <-].
  - by rewrite matching_insert_first.
  - by rewrite Hm.
Qed.

(** A lookup that leaves the table as it is has found exactly one row. *)
Lemma goc_fixed (m : gmap Z R) r :
  goc key m r = Some m → ∃ kr, matching key (key r) m = [kr].
Proof.
  unfold goc. destruct (matching key (key r) m) as [|kr [|]]; [|by eauto|done].
  intros [= Hm].
  assert (<[next_pk m := r]> m !! next_pk m = Some r) as Habs
    by apply lookup_insert_eq.
  rewrite Hm in Habs. by rewrite next_pk_fresh in Habs.
Qed.

Lemma goc_matching_other (m : gmap Z R) r m' v :
  goc key m r = Some m' → key r ≠ v → matching key v m' = matching key v m.
Proof.
  unfold goc. destruct (matching key (key r) m) as [|kr [|]]; intros [= <-] Hv;
    [by apply matching_insert_other|done].
Qed.

Lemma goc_preserves (m : gmap Z R) r m' k x :
  goc key m r = Some m' → m !! k = Some x → m' !! k = Some x.
Proof.
  unfold goc. destruct (matching key (key r) m) as [|kr [|]]; intros [= <-] Hk;
    [|done].
  rewrite lookup_insert_ne; [done|]. intros <-. by rewrite next_pk_fresh in Hk.
Qed.

Lemma goc_size (m : gmap Z R) r m' :
  goc key m r = Some m' → (size m ≤ size m' ≤ size m + 1)%nat.
Proof.
  unfold goc. destruct (matching key (key r) m) as [|kr [|]]; intros [= <-];
    [|lia].
  rewrite map_size_insert_None by apply next_pk_fresh. lia.
Qed.

Lemma goc_all_matching_other (m : gmap Z R) rs m' v :
  goc_all key m rs = Some m' → v ∉ key <$> rs →
  matching key v m' = matching key v m.
Proof.
  revert m. induction rs as [|r rs IH]; intros m; [by intros [= <-]|].
  cbn [goc_all]. destruct (goc key m r) as [m1|] eqn:Hr; [|done].
  intros Hrs Hv. rewrite fmap_cons in Hv. apply not_elem_of_cons in Hv as [Hv1 Hv2].
  rewrite (IH m1), (goc_matching_other m r m1) by done. done.
Qed.

Lemma goc_all_preserves (m : gmap Z R) rs m' k x :
  goc_all key m rs = Some m' → m !! k = Some x → m' !! k = Some x.
Proof.
  revert m. induction rs as [|r rs IH]; intros m; [by intros [= <-]|].
  cbn [goc_all]. destruct (goc key m r) as [m1|] eqn:Hr; [|done].
  intros Hrs Hk. apply (IH m1); [done|]. by eapply goc_preserves.
Qed.

Lemma goc_all_size (m : gmap Z R) rs m' :
  goc_all key m rs = Some m' → (size m ≤ size m' ≤ size m + length rs)%nat.
Proof.
  revert m. induction rs as [|r rs IH]; intros m; [intros [= <-]; cbn; lia|].
  cbn [goc_all]. destruct (goc key m r) as [m1|] eqn:Hr; [|done].
  intros Hrs%IH. apply goc_size in Hr. cbn [length]. lia.
Qed.

(** Run again on the table it left, a sequence of lookups with distinct
    keys finds every row and changes nothing. *)
Lemma goc_all_idem (m : gmap Z R) rs m' :
  NoDup (key <$> rs) → goc_all key m rs = Some m' → goc_all key m' rs = Some m'.
Proof.
  revert m. induction rs as [|r rs IH]; intros m Hnd; [done|].
  rewrite fmap_cons in Hnd. apply NoDup_cons in Hnd as [Hr Hnd].
  cbn [goc_all]. destruct (goc key m r) as [m1|] eqn:Hm1; [|done].
  intros Hrs.
  assert (goc key m' r = Some m') as ->; [|by eapply IH].
  apply goc_idem, goc_fixed in Hm1 as [kr Hkr]. unfold goc.
  by rewrite (goc_all_matching_other m1 rs m'), Hkr.
Qed.

(** After the sequence every key has exactly one row. *)
Lemma goc_all_found (m : gmap Z R) rs m' r :
  NoDup (key <$> rs) → goc_all key m rs = Some m' → r ∈ rs →
  ∃ kr, matching key (key r) m' = [kr].
Proof.
  revert m. induction rs as [|r0 rs IH]; intros m Hnd; [by intros _ ?%elem_of_nil|].
  rewrite fmap_cons in Hnd. apply NoDup_cons in Hnd as [Hr0 Hnd].
  cbn [goc_all]. destruct (goc key m r0) as [m1|] eqn:Hm1; [|done].
  intros Hrs [->|Hin]%elem_of_cons; [|by eapply IH].
  rewrite (goc_all_matching_other m1 rs m') by done.
  by apply goc_idem, goc_fixed in Hm1.
Qed.

(** The sequence fails exactly when the starting table has two rows or
    more for one of the keys. *)
Lemma goc_all_None (m : gmap Z R) rs :
  NoDup (key <$> rs) →
  goc_all key m rs = None
  ↔ ∃ r, r ∈ rs ∧ (2 ≤ length (matching key (key r) m))%nat.
Proof.
  revert m. induction rs as [|r0 rs IH]; intros m Hnd.
  - split; [done|]. by intros (r & ?%elem_of_nil & _).
  - rewrite fmap_cons in Hnd. apply NoDup_cons in Hnd as [Hr0 Hnd].
    cbn [goc_all]. destruct (goc key m r0) as [m1|] eqn:Hm1.
    + rewrite (IH m1 Hnd). split.
      * intros (r & Hin & Hlen). exists r. split; [by right|].
        rewrite <-(goc_matching_other m r0 m1); [done..|].
        intros Heq. apply Hr0. rewrite Heq. by apply list_elem_of_fmap_2.
      * intros (r & [->|Hin]%elem_of_cons & Hlen).
        -- unfold goc in Hm1.
           destruct (matching key (key r0) m) as [|kr [|]]; cbn in Hlen; [lia|lia|done].
        -- exists r. split; [done|].
           rewrite (goc_matching_other m r0 m1); [done..|].
           intros Heq. apply Hr0. rewrite Heq. by apply list_elem_of_fmap_2.
    + split; [intros _|done]. exists r0. split; [by left|].
      unfold goc in Hm1.
      destruct (matching key (key r0) m) as [|kr [|]]; cbn; [done|done|lia].
Qed.

(** A sequence of lookups that each find one row changes nothing. *)
Lemma goc_all_all_found (m : gmap Z R) rs :
  (∀ r, r ∈ rs → ∃ kr, matching key (key r) m = [kr]) → goc_all key m rs = Some m.
Proof.
  induction rs as [|r rs IH]; intros Hall; [done|].
  cbn [goc_all]. destruct (Hall r) as [kr Hkr]; [by left|].
  unfold goc. rewrite Hkr. apply IH. intros r' Hr'. apply Hall. by right.
Qed.

(** Run again with other rows of the same keys, the sequence finds every
    row and changes nothing. *)
Lemma goc_all_idem_keys (m : gmap Z R) rs rs' m' :
  key <$> rs' = key <$> rs → NoDup (key <$> rs) →
  goc_all key m rs = Some m' → goc_all key m' rs' = Some m'.
Proof.
  intros Hkeys Hnd Hrs. apply goc_all_all_found. intros r' Hr'.
  assert (key r' ∈ key <$> rs) as (r & -> & Hr)%list_elem_of_fmap
    by (rewrite <-Hkeys; by apply list_elem_of_fmap_2).
  by eapply goc_all_found.
Qed.

End get_or_create_tables.

(* ===================================================================== *)
(** * seed_db.py: the script                                               *)
(* ===================================================================== *)

Lemma matching_nil_email_free (m : gmap Z Customer.row) e :
  matching Customer.r_email e m = [] → email_taken m e = false.
Proof.
  intros Hnone. apply not_true_is_false. intros (k & r & Hk & He)%email_taken_true.
  by apply (proj1 (matching_nil Customer.r_email e m) Hnone k r).
Qed.

Lemma set_customers_same db : set_customers (λ _, customers db) db = db.
Proof. by destruct db. Qed.

Lemma set_products_same db : set_products (λ _, products db) db = db.
Proof. by destruct db. Qed.

(** One [get_or_create] of a customer, on the customer table. *)
Lemma seed_one_customer_goc now c db :
  match goc Customer.r_email (customers db) (seed_customer_row now c) with
  | Some m' => ∃ out, seed_one_customer now c db
                      = Return_x out (set_customers (λ _, m') db)
  | None => seed_one_customer now c db = Raise_x MultipleObjectsReturned db
  end.
Proof.
  unfold goc, seed_one_customer, get_or_create, Customer_objects_get_email, get_one.
  cbn [seed_customer_row Customer.r_email].
  destruct (matching Customer.r_email (sc_email c) (customers db))
    as [|kr [|]] eqn:Hm.
  - apply matching_nil_email_free in Hm.
    unfold lift_store, atomic, Customer_objects_create_nullable, bind, get_db.
    rewrite Hm. cbn. eauto.
  - rewrite set_customers_same. eauto.
  - done.
Qed.

(** One [get_or_create] of a product whose price can be stored and
    whose stock is not negative, on the product table. *)
Lemma seed_one_product_goc p db h :
  to_hundredths (sp_price p) = Some h → 0 ≤ sp_stock p →
  match goc Product.r_name (products db) (seed_product_row p) with
  | Some m' => ∃ out, seed_one_product p db
                      = Return_x out (set_products (λ _, m') db)
  | None => seed_one_product p db = Raise_x MultipleObjectsReturned db
  end.
Proof.
  intros Hh Hstock.
  unfold goc, seed_one_product, get_or_create, Product_objects_get_name, get_one.
  unfold seed_product_row. rewrite Hh. cbn [default Product.r_name].
  destruct (matching Product.r_name (sp_name p) (products db)) as [|kr [|]] eqn:Hm.
  - unfold Product_objects_create.
    destruct (sp_price p) as [c e| |] eqn:Hprice; [|done..]. rewrite Hh.
    rewrite (proj2 (Z.ltb_ge (sp_stock p) 0)) by done. cbn. eauto.
  - rewrite set_products_same. eauto.
  - done.
Qed.

Lemma seed_kept_refl db : seed_kept db db.
Proof. by repeat split. Qed.

Lemma seed_kept_trans db1 db2 db3 :
  seed_kept db1 db2 → seed_kept db2 db3 → seed_kept db1 db3.
Proof.
  intros (Hc & Hp & Ho & Hop) (Hc' & Hp' & Ho' & Hop').
  repeat split; [by eauto | by eauto | congruence | congruence].
Qed.

Lemma seed_kept_customers m db :
  (∀ k r, customers db !! k = Some r → m !! k = Some r) →
  seed_kept db (set_customers (λ _, m) db).
Proof. intros Hm. by repeat split. Qed.

Lemma seed_kept_products m db :
  (∀ k r, products db !! k = Some r → m !! k = Some r) →
  seed_kept db (set_products (λ _, m) db).
Proof. intros Hm. by repeat split. Qed.

(** The loop over the customers, on the customer table. *)
Lemma for_each_customers_goc now cs db :
  match goc_all Customer.r_email (customers db) (seed_customer_row now <$> cs) with
  | Some m' => for_each (seed_one_customer now) cs db
               = Return_x tt (set_customers (λ _, m') db)
  | None => ∃ db', for_each (seed_one_customer now) cs db
                   = Raise_x MultipleObjectsReturned db' ∧ seed_kept db db'
  end.
Proof.
  revert db. induction cs as [|c cs IH]; intros db.
  - cbn. by rewrite set_customers_same.
  - rewrite fmap_cons. cbn [goc_all for_each]. unfold bind_x.
    pose proof (seed_one_customer_goc now c db) as Hstep.
    destruct (goc Customer.r_email (customers db) (seed_customer_row now c))
      as [m1|] eqn:Hgoc.
    + destruct Hstep as [out ->].
      specialize (IH (set_customers (λ _, m1) db)). cbn [customers set_customers] in IH.
      destruct (goc_all Customer.r_email m1 (seed_customer_row now <$> cs))
        as [m'|].
      * by rewrite IH.
      * destruct IH as (db' & -> & Hkept). exists db'. split; [done|].
        eapply seed_kept_trans; [|exact Hkept].
        apply seed_kept_customers. intros k r. by apply (goc_preserves _ _ _ _ _ _ Hgoc).
    + rewrite Hstep. eauto using seed_kept_refl.
Qed.

(** The loop over products that can be stored, on the product table. *)
Lemma for_each_products_goc ps db :
  Forall (λ p, is_Some (to_hundredths (sp_price p)) ∧ 0 ≤ sp_stock p) ps →
  match goc_all Product.r_name (products db) (seed_product_row <$> ps) with
  | Some m' => for_each seed_one_product ps db
               = Return_x tt (set_products (λ _, m') db)
  | None => ∃ db', for_each seed_one_product ps db
                   = Raise_x MultipleObjectsReturned db' ∧ seed_kept db db'
  end.
Proof.
  intros Hps. revert db. induction Hps as [|p ps [[h Hh] Hstock] _ IH]; intros db.
  - cbn. by rewrite set_products_same.
  - rewrite fmap_cons. cbn [goc_all for_each]. unfold bind_x.
    pose proof (seed_one_product_goc p db h Hh Hstock) as Hstep.
    destruct (goc Product.r_name (products db) (seed_product_row p))
      as [m1|] eqn:Hgoc.
    + destruct Hstep as [out ->].
      specialize (IH (set_products (λ _, m1) db)). cbn [products set_products] in IH.
      destruct (goc_all Product.r_name m1 (seed_product_row <$> ps))
        as [m'|].
      * by rewrite IH.
      * destruct IH as (db' & -> & Hkept). exists db'. split; [done|].
        eapply seed_kept_trans; [|exact Hkept].
        apply seed_kept_products. intros k r. by apply (goc_preserves _ _ _ _ _ _ Hgoc).
    + rewrite Hstep. eauto using seed_kept_refl.
Qed.

(** With emails that are unique, a lookup by email finds one row at most. *)
Lemma emails_unique_matching m e :
  emails_unique m → (length (matching Customer.r_email e m) ≤ 1)%nat.
Proof.
  intros Huniq. unfold matching.
  pose proof (NoDup_map_to_list (filter (λ kr : Z * Customer.row,
                Customer.r_email kr.2 = e) m)) as Hnd.
  destruct (map_to_list _) as [|[k1 r1] [|[k2 r2] l]] eqn:Hl; cbn; [lia|lia|].
  assert ((k1, r1) ∈ (k1, r1) :: (k2, r2) :: l) as H1 by (by left).
  assert ((k2, r2) ∈ (k1, r1) :: (k2, r2) :: l) as H2 by (right; by left).
  rewrite <-Hl in H1, H2.
  apply elem_of_map_to_list, map_lookup_filter_Some in H1 as [H1 He1].
  apply elem_of_map_to_list, map_lookup_filter_Some in H2 as [H2 He2].
  cbn in He1, He2.
  assert (k1 = k2) as -> by (eapply emails_unique_rows; eauto; congruence).
  assert (r1 = r2) as -> by congruence.
  apply NoDup_cons in Hnd as [Hnotin _]. exfalso. apply Hnotin. by left.
Qed.

(** A lookup by email keeps the emails unique. *)
Lemma goc_emails_unique m r m' :
  emails_unique m → goc Customer.r_email m r = Some m' → emails_unique m'.
Proof.
  intros Huniq. unfold goc.
  destruct (matching Customer.r_email (Customer.r_email r) m) as [|kr [|]] eqn:Hm;
    intros [= <-]; [|done].
  apply emails_unique_insert; [done|]. by apply matching_nil_email_free.
Qed.

Lemma goc_all_emails_unique m rs m' :
  emails_unique m → goc_all Customer.r_email m rs = Some m' → emails_unique m'.
Proof.
  revert m. induction rs as [|r rs IH]; intros m Huniq; [by intros [= <-]|].
  cbn [goc_all]. destruct (goc Customer.r_email m r) as [m1|] eqn:Hr; [|done].
  apply IH. by eapply goc_emails_unique.
Qed.

Lemma seed_customer_emails now :
  Customer.r_email <$> (seed_customer_row now <$> seed_customers)
  = sc_email <$> seed_customers.
Proof. reflexivity. Qed.

Lemma seed_customer_emails_NoDup now :
  NoDup (Customer.r_email <$> (seed_customer_row now <$> seed_customers)).
Proof. rewrite seed_customer_emails. apply (bool_decide_unpack _). by vm_compute. Qed.

Lemma seed_product_names_NoDup :
  NoDup (Product.r_name <$> (seed_product_row <$> seed_products)).
Proof. apply (bool_decide_unpack _). by vm_compute. Qed.

Lemma seed_products_storable :
  Forall (λ p, is_Some (to_hundredths (sp_price p)) ∧ 0 ≤ sp_stock p) seed_products.
Proof.
  unfold seed_products.
  repeat (apply Forall_cons; split; [split; [by eexists; vm_compute|by cbn]|]).
  apply Forall_nil_2.
Qed.

(** The script on the two tables. *)
Lemma seed_goc now db :
  match goc_all Customer.r_email (customers db)
          (seed_customer_row now <$> seed_customers),
        goc_all Product.r_name (products db) (seed_product_row <$> seed_products)
  with
  | Some mc, Some mp =>
      seed now db = Return_x tt (set_products (λ _, mp) (set_customers (λ _, mc) db))
  | _, _ => ∃ db', seed now db = Raise_x MultipleObjectsReturned db' ∧ seed_kept db db'
  end.
Proof.
  unfold seed, bind_x.
  pose proof (for_each_customers_goc now seed_customers db) as Hc.
  destruct (goc_all Customer.r_email _ _) as [mc|] eqn:Hmc.
  - rewrite Hc.
    pose proof (for_each_products_goc seed_products (set_customers (λ _, mc) db)
                  seed_products_storable) as Hp.
    cbn [products set_customers] in Hp.
    destruct (goc_all Product.r_name _ _) as [mp|] eqn:Hmp; [done|].
    destruct Hp as (db' & -> & Hkept). exists db'. split; [done|].
    eapply seed_kept_trans; [|exact Hkept].
    apply seed_kept_customers. intros k r. by apply (goc_all_preserves _ _ _ _ _ _ Hmc).
  - destruct Hc as (db' & -> & Hkept). eauto.
Qed.

Example seed_empty_store : seed 7 empty_store = Return_x tt (seeded_store 7).
Proof. vm_compute. reflexivity. Qed.

(** The script has no transaction around it: the customers it added
    stay when a product lookup raises. *)
Example seed_two_laptops :
  seed 7 two_laptops
  = Raise_x MultipleObjectsReturned
      (set_customers (λ _, <[1 := alice]> (customers (seeded_store 7))) two_laptops).
Proof. vm_compute. reflexivity. Qed.

(** X21. A run of [seed] that ends well leaves a store on which a later
    run ends well and changes nothing: every lookup of the later run
    finds its row. *)
Theorem seed_idempotent now later db db' :
  seed now db = Return_x tt db' → seed later db' = Return_x tt db'.
Proof.
  intros Hrun. pose proof (seed_goc now db) as Hfirst.
  destruct (goc_all Customer.r_email _ _) as [mc|] eqn:Hmc;
    [|destruct Hfirst as (? & ? & _); congruence].
  destruct (goc_all Product.r_name _ _) as [mp|] eqn:Hmp;
    [|destruct Hfirst as (? & ? & _); congruence].
  assert (db' = set_products (λ _, mp) (set_customers (λ _, mc) db)) as ->
    by congruence.
  pose proof (seed_goc later (set_products (λ _, mp) (set_customers (λ _, mc) db)))
    as Hsecond.
  cbn [customers products set_products set_customers] in Hsecond.
  rewrite (goc_all_idem_keys Customer.r_email (customers db)
             (seed_customer_row now <$> seed_customers) _ mc) in Hsecond;
    [|by rewrite !seed_customer_emails|apply seed_customer_emails_NoDup|done].
  rewrite (goc_all_idem Product.r_name (products db) _ mp) in Hsecond;
    [|apply seed_product_names_NoDup|done].
  rewrite Hsecond. by destruct db.
Qed.

Lemma seed_idempotent_witness :
  seed 7 empty_store = Return_x tt (seeded_store 7)
  ∧ seed 9 (seeded_store 7) = Return_x tt (seeded_store 7).
Proof.
  split; [vm_compute; reflexivity|].
  apply (seed_idempotent 7 9 empty_store). vm_compute. reflexivity.
Defined.

Lemma seed_Return now db db' :
  seed now db = Return_x tt db' →
  ∃ mc mp,
    goc_all Customer.r_email (customers db)
      (seed_customer_row now <$> seed_customers) = Some mc
    ∧ goc_all Product.r_name (products db) (seed_product_row <$> seed_products)
      = Some mp
    ∧ db' = set_products (λ _, mp) (set_customers (λ _, mc) db).
Proof.
  intros Hrun. pose proof (seed_goc now db) as Hgoc.
  destruct (goc_all Customer.r_email _ _) as [mc|];
    [|destruct Hgoc as (? & ? & _); congruence].
  destruct (goc_all Product.r_name _ _) as [mp|];
    [|destruct Hgoc as (? & ? & _); congruence].
  exists mc, mp. repeat split. congruence.
Qed.

(** X22. A run of [seed] that ends well has kept every row that was
    there and has left the orders alone; it has added three customers
    and three products at most; and afterwards each of the script's
    emails is held by exactly one customer and each of its product
    names by exactly one product. *)
Theorem seed_adds_what_is_missing now db db' :
  seed now db = Return_x tt db' →
  seed_kept db db'
  ∧ (size (customers db) ≤ size (customers db') ≤ size (customers db) + 3)%nat
  ∧ (size (products db) ≤ size (products db') ≤ size (products db) + 3)%nat
  ∧ (∀ c, c ∈ seed_customers →
       ∃ kr, matching Customer.r_email (sc_email c) (customers db') = [kr])
  ∧ (∀ p, p ∈ seed_products →
       ∃ kr, matching Product.r_name (sp_name p) (products db') = [kr]).
Proof.
  intros (mc & mp & Hmc & Hmp & ->)%seed_Return.
  cbn [customers products set_products set_customers].
  split; [|split; [|split; [|split]]].
  - repeat split; cbn [customers products set_products set_customers orders
                       order_products]; intros k r.
    + by apply (goc_all_preserves _ _ _ _ _ _ Hmc).
    + by apply (goc_all_preserves _ _ _ _ _ _ Hmp).
  - by apply goc_all_size in Hmc.
  - by apply goc_all_size in Hmp.
  - intros c Hc.
    apply (goc_all_found Customer.r_email _ _ _ (seed_customer_row now c)
             (seed_customer_emails_NoDup now) Hmc).
    by apply list_elem_of_fmap_2.
  - intros p Hp.
    apply (goc_all_found Product.r_name _ _ _ (seed_product_row p)
             seed_product_names_NoDup Hmp).
    by apply list_elem_of_fmap_2.
Qed.

Lemma seed_adds_what_is_missing_witness :
  seed 7 shop = Return_x tt seeded_shop ∧ seed_kept shop seeded_shop.
Proof.
  split; [vm_compute; reflexivity|].
  apply (seed_adds_what_is_missing 7 shop). vm_compute. reflexivity.
Defined.

(** X23. The only exception that [seed] raises is
    MultipleObjectsReturned, from a lookup that finds several rows; the
    store it leaves then still has every row that was there, and the
    orders as they were. *)
Theorem seed_raises_only_multiple now db e db' :
  seed now db = Raise_x e db' → e = MultipleObjectsReturned ∧ seed_kept db db'.
Proof.
  intros Hrun. pose proof (seed_goc now db) as Hgoc.
  destruct (goc_all Customer.r_email _ _) as [mc|].
  - destruct (goc_all Product.r_name _ _) as [mp|]; [congruence|].
    destruct Hgoc as (db2 & Hrun2 & Hkept). rewrite Hrun in Hrun2.
    by injection Hrun2 as -> ->.
  - destruct Hgoc as (db2 & Hrun2 & Hkept). rewrite Hrun in Hrun2.
    by injection Hrun2 as -> ->.
Qed.

Lemma seed_raises_only_multiple_witness :
  seed 7 two_laptops
  = Raise_x MultipleObjectsReturned
      (set_customers (λ _, <[1 := alice]> (customers (seeded_store 7))) two_laptops)
  ∧ seed_kept two_laptops
      (set_customers (λ _, <[1 := alice]> (customers (seeded_store 7))) two_laptops).
Proof.
  split; [vm_compute; reflexivity|].
  apply (seed_raises_only_multiple 7 two_laptops MultipleObjectsReturned).
  vm_compute. reflexivity.
Defined.

(** X24. On a store whose customer emails are unique, [seed] raises
    exactly when two products or more already carry one of its three
    product names; otherwise it returns. *)
Theorem seed_raises_iff_name_repeated now db :
  emails_unique (customers db) →
  ((∃ p, p ∈ seed_products
         ∧ (2 ≤ length (matching Product.r_name (sp_name p) (products db)))%nat)
   ∧ ∃ db', seed now db = Raise_x MultipleObjectsReturned db')
  ∨ ((¬ ∃ p, p ∈ seed_products
             ∧ (2 ≤ length (matching Product.r_name (sp_name p) (products db)))%nat)
     ∧ ∃ db', seed now db = Return_x tt db').
Proof.
  intros Huniq. pose proof (seed_goc now db) as Hgoc.
  destruct (goc_all Customer.r_email _ _) as [mc|] eqn:Hmc.
  - destruct (goc_all Product.r_name _ _) as [mp|] eqn:Hmp.
    + right. split; [|by eauto].
      intros (p & Hp & Hlen).
      assert (goc_all Product.r_name (products db) (seed_product_row <$> seed_products)
              = None) as Hnone; [|congruence].
      apply goc_all_None; [apply seed_product_names_NoDup|].
      exists (seed_product_row p). split; [by apply list_elem_of_fmap_2|done].
    + left. destruct Hgoc as (db' & Hrun & _). split; [|by eauto].
      apply goc_all_None in Hmp as (r & Hr & Hlen); [|apply seed_product_names_NoDup].
      apply list_elem_of_fmap in Hr as (p & -> & Hp). by exists p.
  - apply goc_all_None in Hmc as (r & _ & Hlen); [|apply seed_customer_emails_NoDup].
    pose proof (emails_unique_matching (customers db) (Customer.r_email r) Huniq). lia.
Qed.

Lemma seed_raises_iff_name_repeated_witness :
  emails_unique (customers two_laptops)
  ∧ (((∃ p, p ∈ seed_products
          ∧ (2 ≤ length (matching Product.r_name (sp_name p)
                           (products two_laptops)))%nat)
      ∧ ∃ db', seed 7 two_laptops = Raise_x MultipleObjectsReturned db')
     ∨ ((¬ ∃ p, p ∈ seed_products
                ∧ (2 ≤ length (matching Product.r_name (sp_name p)
                                 (products two_laptops)))%nat)
        ∧ ∃ db', seed 7 two_laptops = Return_x tt db')).
Proof.
  assert (emails_unique (customers two_laptops)) as Huniq
    by (apply (bool_decide_unpack _); vm_compute; exact I).
  split; [exact Huniq|]. exact (seed_raises_iff_name_repeated 7 two_laptops Huniq).
Defined.

(** X25. [seed] keeps the customer emails unique. *)
Theorem seed_keeps_emails_unique now db db' :
  emails_unique (customers db) → seed now db = Return_x tt db' →
  emails_unique (customers db').
Proof.
  intros Huniq (mc & mp & Hmc & Hmp & ->)%seed_Return.
  cbn [customers set_products set_customers].
  by eapply goc_all_emails_unique.
Qed.

Lemma seed_keeps_emails_unique_witness :
  emails_unique (customers shop) ∧ seed 7 shop = Return_x tt seeded_shop
  ∧ emails_unique (customers seeded_shop).
Proof.
  split; [apply (bool_decide_unpack _); vm_compute; exact I|].
  split; [vm_compute; reflexivity|].
  apply (seed_keeps_emails_unique 7 shop).
  - apply (bool_decide_unpack _). vm_compute. exact I.
  - vm_compute. reflexivity.
Defined.

(* ===================================================================== *)
(** * Order.save, and the rest of createOrder's block                      *)
(* ===================================================================== *)

(** X8. [Order.save] on an order that has no key yet never reaches the
    store, whatever the keyword arguments are: the override reads
    [self.products] first, which Django refuses for an instance without
    a key. When the order's customer has a row the refusal is a
    [ValueError]; on an order without a customer, [str(self)], called
    for the message of that error, fails before with
    [RelatedObjectDoesNotExist]. Nothing is written. *)
Theorem order_save_unsaved_raises now kw self db :
  Order.id self = None →
  match Order.customer_id self with
  | None => Order_save now kw self db = Raise RelatedObjectDoesNotExist db
  | Some c =>
      is_Some (customers db !! c) → Order_save now kw self db = Raise ValueError db
  end.
Proof.
  intros Hid. unfold Order_save. rewrite Hid. cbn [not_pk].
  unfold Order_products, Order_str. rewrite Hid.
  destruct (Order.customer_id self) as [c|].
  - intros [r Hr].
    erewrite bind_Raise; [done|]. erewrite bind_Raise; [done|].
    erewrite bind_Return; [done|].
    erewrite bind_Return by reflexivity. by rewrite Hr.
  - erewrite bind_Raise; [done|]. erewrite bind_Raise; [done|].
    by erewrite bind_Raise.
Qed.

Lemma order_save_unsaved_raises_witness :
  Order_save 7 (mk_kwargs false None) (Order.mk None (Some 1) 5000 (Some 3)) shop
  = Raise ValueError shop
  ∧ Order_save 7 (mk_kwargs false None) (Order.mk None None 5000 (Some 3)) shop
    = Raise RelatedObjectDoesNotExist shop.
Proof.
  split.
  - apply (order_save_unsaved_raises 7 (mk_kwargs false None)
             (Order.mk None (Some 1) 5000 (Some 3)) shop).
    + reflexivity.
    + eexists. reflexivity.
  - apply (order_save_unsaved_raises 7 (mk_kwargs false None)
             (Order.mk None None 5000 (Some 3)) shop).
    reflexivity.
Defined.

(** X9. [Order.save] on an order that has a row, with no keyword
    argument, does not compute a total: the row takes the customer, the
    total and the date that the instance holds, whatever the products
    of the order are, and nothing else changes. *)
Theorem order_save_stored_keeps_total now self k row c d db :
  Order.id self = Some k → k ≠ 0 → orders db !! k = Some row →
  Order.customer_id self = Some c → is_Some (customers db !! c) →
  Order.order_date self = Some d →
  Order_save now (mk_kwargs false None) self db
  = Return self (set_orders (insert k (Order.mk_row c (Order.total_amount self) d)) db).
Proof.
  intros Hid Hk Hrow Hc [crow Hcrow] Hd.
  unfold Order_save. rewrite Hid. cbn [not_pk]. rewrite bool_decide_false by done.
  erewrite bind_Return by reflexivity.
  unfold Model_save. cbn [update_fields force_insert].
  erewrite bind_Return by reflexivity. rewrite Hid.
  erewrite bind_Return; last first.
  { unfold Order_update. erewrite bind_Return by reflexivity. rewrite Hrow.
    change (bool_decide ("customer" ∈ order_field_names)) with true.
    change (bool_decide ("order_date" ∈ order_field_names)) with true.
    change (bool_decide ("total_amount" ∈ order_field_names)) with true.
    cbn beta iota. rewrite Hc, Hd, Hcrow. reflexivity. }
  reflexivity.
Qed.

Lemma order_save_stored_keeps_total_witness :
  Order_save 7 (mk_kwargs false None) (Order.mk (Some 5) (Some 1) 123 (Some 9))
    shop_with_order
  = Return (Order.mk (Some 5) (Some 1) 123 (Some 9))
      (set_orders (insert 5 (Order.mk_row 1 123 9)) shop_with_order).
Proof.
  apply (order_save_stored_keeps_total 7 (Order.mk (Some 5) (Some 1) 123 (Some 9))
           5 (Order.mk_row 1 0 100) 1 9 shop_with_order).
  - reflexivity.
  - lia.
  - reflexivity.
  - reflexivity.
  - eexists. reflexivity.
  - reflexivity.
Defined.

(** [set] on an order that has a row, with products that have rows. *)
Lemma related_set_Return k ps db :
  is_Some (orders db !! k) →
  Forall (λ p, ∃ pk, Product.id p = Some pk ∧ is_Some (products db !! pk)) ps →
  related_set k ps db
  = Return tt (set_order_products (λ rows,
      filter (λ r, r.1 ≠ k) rows
      ∪ list_to_set ((λ pk, (k, pk)) <$> omap Product.id ps)) db).
Proof.
  intros Horder Hps. unfold related_set. erewrite bind_Return by reflexivity.
  assert (forallb (λ p, bool_decide (is_Some (Product.id p))) ps = true) as ->.
  { apply forallb_forall. intros p Hp%list_elem_of_In.
    destruct (proj1 (Forall_forall _ _) Hps p Hp) as (pk & Hpk & _).
    apply bool_decide_eq_true. by rewrite Hpk. }
  assert (forallb (λ pk, bool_decide (is_Some (products db !! pk)))
            (omap Product.id ps) = true) as ->.
  { apply forallb_forall. intros pk Hpk%list_elem_of_In.
    apply list_elem_of_omap in Hpk as (p & Hp & Hid).
    destruct (proj1 (Forall_forall _ _) Hps p Hp) as (pk' & Hpk' & Hrow).
    apply bool_decide_eq_true. congruence. }
  by rewrite bool_decide_true by done.
Qed.

(** X7. Lines 171 to 176 of schema.py with [Order.save], the rest of
    createOrder's atomic block, run on an order that does have a row,
    with products that have rows, whose prices are not negative and sum
    to a total of ten digits at most (so that every partial sum is exact
    in decimal arithmetic and the total fits its column): it returns the
    order with the exact sum of the prices as total; in the store the
    order's row has that total and keeps its customer and date, its
    association rows are one per distinct product, and the customers,
    the products, the other orders and their association rows are as
    they were. *)
Theorem create_order_block_on_stored_order now db k row order ps :
  Order.id order = Some k → k ≠ 0 →
  orders db !! k = Some row →
  is_Some (customers db !! Order.r_customer_id row) →
  Forall (λ p, ∃ pk, Product.id p = Some pk ∧ is_Some (products db !! pk)) ps →
  Forall (λ p, 0 ≤ Product.price p) ps →
  py_sum (Product.price <$> ps) < 10 ^ 10 →
  let total := py_sum (Product.price <$> ps) in
  ∃ db',
    (manager <- Order_products order ;;
     related_set manager ps ;;;
     order <- Order_save now (mk_kwargs false (Some ["total_amount"]))
                (with_total_amount total order) ;;
     ret (CreateOrderPayload.mk (Some order) [])) db
    = Return (CreateOrderPayload.mk (Some (with_total_amount total order)) []) db'
    ∧ customers db' = customers db ∧ products db' = products db
    ∧ orders db' !! k
      = Some (Order.mk_row (Order.r_customer_id row) total (Order.r_order_date row))
    ∧ (∀ k', k' ≠ k → orders db' !! k' = orders db !! k')
    ∧ (∀ pk, (k, pk) ∈ order_products db' ↔ pk ∈ omap Product.id ps)
    ∧ (∀ k' pk, k' ≠ k → (k', pk) ∈ order_products db' ↔ (k', pk) ∈ order_products db).
Proof.
  intros Hid Hk Hrow [c Hc] Hps _ _ total.
  eexists. split; [|split; [|split; [|split; [|split; [|split]]]]].
  - erewrite bind_Return by (unfold Order_products; rewrite Hid; reflexivity).
    erewrite bind_Return by by apply related_set_Return.
    erewrite bind_Return; [reflexivity|].
    unfold Order_save. cbn [with_total_amount Order.id]. rewrite Hid.
    cbn [not_pk]. rewrite bool_decide_false by done.
    erewrite bind_Return by reflexivity.
    unfold Model_save, with_total_amount.
    cbn [update_fields force_insert Order.id]. rewrite Hid.
    change (negb (forallb (λ f, bool_decide (f ∈ order_field_names)) ["total_amount"]))
      with false.
    unfold Order_update. unfold bind at 1. unfold bind at 1. unfold get_db at 1.
    cbn [orders set_order_products customers]. rewrite Hrow.
    change (bool_decide ("customer" ∈ ["total_amount"])) with false.
    change (bool_decide ("customer_id" ∈ ["total_amount"])) with false.
    change (bool_decide ("order_date" ∈ ["total_amount"])) with false.
    change (bool_decide ("total_amount" ∈ ["total_amount"])) with true.
    cbn [orders set_order_products customers]. rewrite Hc.
    reflexivity.
  - reflexivity.
  - reflexivity.
  - cbn. apply lookup_insert_eq.
  - intros k' Hk'. cbn. by rewrite lookup_insert_ne.
  - intros pk. cbn. rewrite elem_of_union, elem_of_filter, elem_of_list_to_set.
    rewrite list_elem_of_fmap. cbn. split.
    + intros [[Hne _]|(pk' & [= ->] & Hin)]; [done|done].
    + intros Hin. right. by exists pk.
  - intros k' pk Hk'. cbn. rewrite elem_of_union, elem_of_filter, elem_of_list_to_set.
    rewrite list_elem_of_fmap. cbn. split.
    + intros [[_ Hin]|(pk' & [= -> _] & _)]; [done|done].
    + intros Hin. by left.
Qed.

Lemma create_order_block_on_stored_order_witness :
  ∃ db', orders db' !! 5 = Some (Order.mk_row 1 1550 100)
         ∧ ∀ pk, (5, pk) ∈ order_products db' ↔ pk ∈ [1; 2].
Proof.
  destruct (create_order_block_on_stored_order 7 shop_with_order 5
              (Order.mk_row 1 0 100) (Order.mk (Some 5) (Some 1) 0 (Some 100))
              [Product.mk (Some 1) "P1" 1000 3; Product.mk (Some 2) "P2" 550 3])
    as (db' & _ & _ & _ & Hrow & _ & Hassoc & _).
  - reflexivity.
  - lia.
  - reflexivity.
  - eexists. reflexivity.
  - repeat constructor; (eexists; split; [reflexivity|eexists; reflexivity]).
  - repeat constructor; simpl; lia.
  - vm_compute. reflexivity.
  - exists db'. split; [exact Hrow|exact Hassoc].
Defined.
